(** * Battery / thermal co-simulation engine of the animation scripts

    A shallow embedding of the numeric core of
    [generate_comprehensive_lives.py], [generate_live_gifs.py] and
    [generate_more_gifs.py]: the power model, the three forward-Euler
    integrator loops, the stochastic ensemble and the transition composer.

    Numbers.  The scripts compute on binary64 floats.  Here every float is
    an exact rational ([Q]); equality of computed values is [Qeq] ([==]).
    Rounding is therefore not modelled: the statements below are statements
    about the arithmetic the scripts spell out, carried out exactly.  The
    few formulas where rounding decides a claim are written once more on
    binary64 floats, in module [B64].

    Arrays.  A numpy array is a [list Q].  The loops write the arrays from
    index 1 upwards and never read an unwritten cell, so each loop is a
    function that produces the written cells in order.

    Randomness.  [np.random] is a global generator; it is modelled as an
    explicit stream of standard-normal draws threaded through the calls
    that use it (module [Rng]). *)

From Stdlib Require Import String QArith Qround Qabs Lqa ZArith List Lia Bool.
From Stdlib Require PrimFloat.
Import ListNotations.
Open Scope Q_scope.

(** ** Python and numpy primitives *)

Module Py.

(** Exceptions the modelled code can raise. *)
Inductive exn : Type :=
| ZeroDivisionError   (* np.arange with a zero step *)
| ValueError          (* np.linspace / np.zeros with a negative count *)
| IndexError          (* a[0] = ... on an empty array, or a[-1] on an empty list *)
| KeyError.           (* scenarios_params[s_name] for an unknown name *)

Inductive result (A : Type) : Type :=
| Ok (a : A)
| Raise (e : exn).

Arguments Ok {A} a.
Arguments Raise {A} e.

Definition bind {A B : Type} (r : result A) (k : A -> result B) : result B :=
  match r with
  | Ok a => k a
  | Raise e => Raise e
  end.

(** [max(a, b)] of Python: the first argument unless the second is
    strictly larger. *)
Definition py_max (a b : Q) : Q := if Qle_bool b a then a else b.

(** [np.maximum(a, b)] on one cell. *)
Definition np_maximum (a b : Q) : Q := if Qle_bool b a then a else b.

(** [int(x)]: truncation toward zero. *)
Definition py_int (x : Q) : Z := if Qle_bool 0 x then Qfloor x else Qceiling x.

Definition of_nat (k : nat) : Q := inject_Z (Z.of_nat k).

(** Number of cells of [np.arange(0, stop, step)] for a non-zero step:
    [ceil(stop / step)], or none when that is not positive. *)
Definition arange_len (stop step : Q) : nat := Z.to_nat (Qceiling (stop / step)).

(** [np.arange(0, stop, step)]: cell [k] holds [k * step]. *)
Definition np_arange (stop step : Q) : result (list Q) :=
  if Qeq_bool step 0 then Raise ZeroDivisionError
  else Ok (map (fun k => of_nat k * step) (seq 0 (arange_len stop step))).

(** [np.linspace(0, stop, num)] for [num >= 0]: [num] cells, cell [k] holds
    [k * (stop / (num - 1))]. *)
Definition np_linspace (stop : Q) (num : nat) : list Q :=
  map (fun k => of_nat k * (stop / of_nat (num - 1))) (seq 0 num).

(** [np.zeros(n)], [np.zeros_like(a)], [np.full_like(a, v)]. *)
Definition np_zeros (n : nat) : list Q := repeat 0 n.
Definition np_full_like (a : list Q) (v : Q) : list Q := repeat v (length a).

(** [a[mask(t)] = v], the mask computed cell by cell from [t]. *)
Fixpoint masked_set (mask : Q -> bool) (v : Q) (t a : list Q) : list Q :=
  match t, a with
  | tk :: t', ak :: a' => (if mask tk then v else ak) :: masked_set mask v t' a'
  | _, _ => a
  end.

Definition Qlt_bool (x y : Q) : bool := negb (Qle_bool y x).

End Py.

Import Py.

(** ** The global random generator *)

Module Rng.

(** The generator's state: the standard-normal draws still to come. *)
Definition state : Type := nat -> Q.

(** A computation that may draw. *)
Definition M (A : Type) : Type := state -> A * state.

Definition ret {A : Type} (a : A) : M A := fun st => (a, st).

Definition mbind {A B : Type} (m : M A) (k : A -> M B) : M B :=
  fun st => let (a, st') := m st in k a st'.

(** [np.random.normal(loc, scale)] with scalar arguments: one draw [z],
    the sample is [loc + scale * z]. *)
Definition normal (loc scale : Q) : M Q :=
  fun st => (loc + scale * st 0%nat, fun k => st (S k)).

(** [np.random.normal(loc, scale, len(scale))] with an array of scales:
    one draw per cell, in order. *)
Fixpoint normal_array (loc : Q) (scale : list Q) : M (list Q) :=
  match scale with
  | [] => ret []
  | s :: scale' =>
      mbind (normal loc s) (fun x =>
      mbind (normal_array loc scale') (fun xs => ret (x :: xs)))
  end.

(** The generator that only ever draws [z]. *)
Definition const (z : Q) : state := fun _ => z.

End Rng.

(** ** The two forward-Euler temperature updates

    [generate_comprehensive_lives.py] writes the update as
    [dT = (p - (temp[i] - T_AMB)/R_TH) * (60 / C_TH)], the other two
    scripts as [dTdt = (p_bat / C_TH) - (temp[i] - t_amb) / (R_TH * C_TH)]
    followed by [temp[i] + dTdt * dt_s].  Both are stated once, over the
    constants each script fixes, and instantiated in the loops below. *)

Definition thermal_step_lives (T_amb R_th C_th dt_s p T : Q) : Q :=
  let dT := (p - (T - T_amb) / R_th) * (dt_s / C_th) in
  T + dT.

Definition thermal_step_gifs (T_amb R_th C_th dt_s p T : Q) : Q :=
  let dTdt := (p / C_th) - (T - T_amb) / (R_th * C_th) in
  T + dTdt * dt_s.

(** The post-depletion update of [generate_more_gifs.py]:
    [dTdt = - (temp[j] - t_amb) / (R_TH * C_TH)]. *)
Definition relax_step (T_amb R_th C_th dt_s T : Q) : Q :=
  let dTdt := - (T - T_amb) / (R_th * C_th) in
  T + dTdt * dt_s.

(** ** generate_comprehensive_lives.py *)

Module Lives.

Definition E_MAX_WH : Q := 22.0.
Definition C_TH : Q := 2000.0.
Definition R_TH : Q := 2.2.
Definition T_AMB : Q := 25.0.
Definition T_REF : Q := 25.0.
Definition P_CPU_STATIC : Q := 0.40.
Definition K_CPU_BASE : Q := 5.0.
Definition ALPHA_CPU_T : Q := 0.002.
(** [GAMMA_CPU = 2.0]; [x ** GAMMA_CPU] is the square. *)
Definition GAMMA_CPU : Z := 2.

Record scenario : Type := mkScenario {
  u_s : Q; b : Q; U : Q; Rdl : Q; Rul : Q; Srx : Q; Stx : Q; f_g : Q
}.

Definition scenarios_params : list (string * scenario) :=
  [ ("Idle"%string,       mkScenario 0 0.0 0.05  0.10 0.05 0.20 0.20 0.01);
    ("Browsing"%string,   mkScenario 1 0.4 0.80  5.00 0.50 0.30 0.30 0.02);
    ("Video"%string,      mkScenario 1 0.6 1.00  6.00 0.50 0.30 0.30 0.02);
    ("Gaming"%string,     mkScenario 1 0.7 1.605 1.00 0.20 0.25 0.25 0.01);
    ("Navigation"%string, mkScenario 1 0.6 0.90  2.00 0.20 0.35 0.35 0.80) ].

(** [scenarios_params[s_name]]. *)
Fixpoint lookup (s_name : string) (d : list (string * scenario)) : result scenario :=
  match d with
  | [] => Raise KeyError
  | (k, v) :: d' => if String.eqb k s_name then Ok v else lookup s_name d'
  end.

(** The five locals of [get_scenario_power]. *)
Definition P_screen (s : scenario) : Q := u_s s * (200.0 * 0.007 * b s + 0.20).

Definition P_proc (s : scenario) (T_curr : Q) : Q :=
  P_CPU_STATIC + K_CPU_BASE * (U s ^ GAMMA_CPU) * (1 + ALPHA_CPU_T * (T_curr - T_REF)).

Definition P_modem (s : scenario) : Q :=
  0.40 + (Rdl s * 0.05 + Rul s * 0.08) + (Srx s * 0.25 + Stx s * 0.25).

Definition P_gps (s : scenario) : Q :=
  if Qlt_bool 0 (u_s s) then 0.2 + 0.063 * f_g s else 0.

Definition P_misc : Q := 0.25 + 0.1.

Definition scenario_power (s : scenario) (T_curr : Q) : Q :=
  P_screen s + P_proc s T_curr + P_modem s + P_gps s + P_misc.

Definition get_scenario_power (s_name : string) (T_curr : Q) : result Q :=
  bind (lookup s_name scenarios_params) (fun s => Ok (scenario_power s T_curr)).

Record trajectory : Type := mkTrajectory {
  t_h : list Q; soc : list Q; temp : list Q
}.

(** The body of [for i in range(steps-1)], from the cell [i] just written:
    the cells [i+1 ...] of [soc] and [temp] that the loop writes.  The
    loop stops after the first cell with [soc[i+1] <= 0]; the arrays are
    then cut right behind it. *)
Fixpoint loop (s_name : string) (n : nat) (soc_i temp_i : Q) : result (list Q * list Q) :=
  match n with
  | O => Ok ([], [])
  | S n' =>
      bind (get_scenario_power s_name temp_i) (fun p =>
      let soc1 := py_max 0 (soc_i - (p / E_MAX_WH) * (1 / 60)) in
      let temp1 := thermal_step_lives T_AMB R_TH C_TH 60 p temp_i in
      if Qle_bool soc1 0 then Ok ([soc1], [temp1])
      else
        bind (loop s_name n' soc1 temp1) (fun r =>
        Ok (soc1 :: fst r, temp1 :: snd r)))
  end.

Definition simulate_scenario_fixed (s_name : string) (duration_h : Q) : result trajectory :=
  let steps := py_int (duration_h * 60) in
  if (steps <? 0)%Z then Raise ValueError
  else if (steps =? 0)%Z then Raise IndexError
  else
    let grid := np_linspace duration_h (Z.to_nat steps) in
    bind (loop s_name (Z.to_nat steps - 1) 1.0 T_AMB) (fun r =>
    let soc := 1.0 :: fst r in
    let temp := T_AMB :: snd r in
    Ok (mkTrajectory (firstn (length soc) grid) soc temp)).

(** *** The Monte-Carlo fan ([make_monte_carlo_gif])

    Each of the runs draws one factor [noise = normal(1.0, std)] and shows
    [100 - x * base_rate * noise]; the main line is
    [100 - x * base_rate].  The script fixes [std = 0.15] and ten runs. *)

Definition base_rate : Q := 12.0.

Fixpoint mc_noises (std : Q) (n_runs : nat) : Rng.M (list Q) :=
  match n_runs with
  | O => Rng.ret []
  | S n' =>
      Rng.mbind (Rng.normal 1.0 std) (fun noise =>
      Rng.mbind (mc_noises std n') (fun rest => Rng.ret (noise :: rest)))
  end.

Definition mc_line (x : list Q) (noise : Q) : list Q :=
  map (fun xk => 100 - xk * base_rate * noise) x.

Definition mc_main_line (x : list Q) : list Q :=
  map (fun xk => 100 - xk * base_rate) x.

(** *** The transition composer ([make_power_breakdown_gif]) *)

Definition temp_sim : Q := 35.0.

(** The four components, in the order the script returns them:
    [(p_cpu, p_scr, p_mdm, p_misc)]. *)
Record breakdown : Type := mkBreakdown {
  p_cpu : Q; p_scr : Q; p_mdm : Q; p_misc : Q
}.

Definition comp_power (s_data : scenario) : breakdown :=
  mkBreakdown
    (P_CPU_STATIC + K_CPU_BASE * (U s_data ^ GAMMA_CPU) * (1 + ALPHA_CPU_T * (temp_sim - T_REF)))
    (u_s s_data * (200.0 * 0.007 * b s_data + 0.20))
    (0.40 + (Rdl s_data * 0.05 + Rul s_data * 0.08) + (Srx s_data * 0.25 + Stx s_data * 0.25))
    (0.25 + 0.1 + (if Qlt_bool 0 (u_s s_data) then 0.2 + 0.063 * f_g s_data else 0)).

Definition get_comp_power (s_name : string) : result breakdown :=
  bind (lookup s_name scenarios_params) (fun s_data => Ok (comp_power s_data)).

(** One value of the inner loop: [p_start + (p_end - p_start) * alpha]. *)
Definition interp (p_start p_end alpha : Q) : Q := p_start + (p_end - p_start) * alpha.

(** One pass of [for step in range(dur)], from [step] on: each pass draws
    the jitter [j = normal(1.0, 0.015)] and appends the four interpolated
    components times [j]. *)
Fixpoint segment (p_start p_end : breakdown) (dur : nat) (step n : nat) : Rng.M (list breakdown) :=
  match n with
  | O => Rng.ret []
  | S n' =>
      let alpha := of_nat step / of_nat dur in
      let c := interp (p_cpu p_start) (p_cpu p_end) alpha in
      let s := interp (p_scr p_start) (p_scr p_end) alpha in
      let m := interp (p_mdm p_start) (p_mdm p_end) alpha in
      let mi := interp (p_misc p_start) (p_misc p_end) alpha in
      Rng.mbind (Rng.normal 1.0 0.015) (fun j =>
      Rng.mbind (segment p_start p_end dur (S step) n') (fun rest =>
      Rng.ret (mkBreakdown (c * j) (s * j) (m * j) (mi * j) :: rest)))
  end.

(** [for i in range(len(checkpoints) - 1)]: the segment from checkpoint
    [i] to checkpoint [i+1] lasts the duration of checkpoint [i+1]. *)
Fixpoint segments (start_mode : string) (rest : list (string * nat)) : Rng.M (result (list breakdown)) :=
  match rest with
  | [] => Rng.ret (Ok [])
  | (end_mode, dur) :: rest' =>
      match get_comp_power start_mode, get_comp_power end_mode with
      | Ok p_start, Ok p_end =>
          Rng.mbind (segment p_start p_end dur 0 dur) (fun here =>
          Rng.mbind (segments end_mode rest') (fun r =>
          Rng.ret (bind r (fun later => Ok (here ++ later)))))
      | Raise e, _ => Rng.ret (Raise e)
      | _, Raise e => Rng.ret (Raise e)
      end
  end.

(** The composed sequence before the 40 closing frames that repeat the
    last entry. *)
Definition compose (checkpoints : list (string * nat)) : Rng.M (result (list breakdown)) :=
  match checkpoints with
  | [] => Rng.ret (Ok [])
  | (start_mode, _) :: rest => segments start_mode rest
  end.

Definition checkpoints : list (string * nat) :=
  [ ("Idle"%string, 30%nat); ("Browsing"%string, 50%nat); ("Gaming"%string, 70%nat);
    ("Video"%string, 50%nat); ("Idle"%string, 30%nat) ].

End Lives.

(** ** generate_more_gifs.py *)

Module More.

Definition E_MAX_WH : Q := 22.0.
Definition P_IDLE : Q := 0.25.
Definition C_TH : Q := 120.0.
Definition R_TH : Q := 3.2.
Definition T_AMB_STD : Q := 25.0.

Record trajectory : Type := mkTrajectory {
  t_h : list Q; p_sys : list Q; soc : list Q; temp : list Q
}.

(** [for j in range(i+1, len(t_h)-1)]: the temperature cells after the
    depletion cell, [n] of them, from the cell [temp_j] just written. *)
Fixpoint relax (dt_s t_amb : Q) (n : nat) (temp_j : Q) : list Q :=
  match n with
  | O => []
  | S n' =>
      let temp1 := relax_step t_amb R_TH C_TH dt_s temp_j in
      temp1 :: relax dt_s t_amb n' temp1
  end.

(** The body of [for i in range(len(t_h)-1)] over the power cells
    [p_sys[i ...]] still to be consumed, from the cells [soc[i]] and
    [temp[i]] just written.  On depletion [soc[i+1:] = 0] fills the rest
    of [soc] and the inner loop fills the rest of [temp]. *)
Fixpoint loop (dt_s t_amb e_max : Q) (p : list Q) (soc_i temp_i : Q) : list Q * list Q :=
  match p with
  | [] => ([], [])
  | p_i :: p' =>
      let p_bat := p_i + P_IDLE in
      let soc1 := py_max 0 (soc_i - (p_bat / e_max) * (dt_s / 3600)) in
      let temp1 := thermal_step_gifs t_amb R_TH C_TH dt_s p_bat temp_i in
      if Qle_bool soc1 0 then
        (repeat 0 (S (length p')), temp1 :: relax dt_s t_amb (length p') temp1)
      else
        let r := loop dt_s t_amb e_max p' soc1 temp1 in
        (soc1 :: fst r, temp1 :: snd r)
  end.

(** [simulate_scenario(duration_h, dt_s, p_profile, t_amb, e_max)].  A
    profile is a vectorised function of the time grid; as every profile of
    the script it is taken cell by cell. *)
Definition simulate_scenario (duration_h dt_s : Q) (p_profile : option (Q -> Q))
    (t_amb e_max : Q) : result trajectory :=
  bind (np_arange (duration_h * 3600) dt_s) (fun t_s =>
  let t_h := map (fun t => t / 3600) t_s in
  let p_sys :=
    match p_profile with
    | None => np_full_like t_h 2.0
    | Some f => map f t_h
    end in
  match t_h with
  | [] => Raise IndexError
  | _ :: _ =>
      let r := loop dt_s t_amb e_max (removelast p_sys) 1.0 t_amb in
      Ok (mkTrajectory t_h p_sys (1.0 :: fst r) (t_amb :: snd r))
  end).

End More.

(** ** generate_live_gifs.py *)

Module Live.

Definition E_MAX_WH : Q := 22.0.
Definition P_IDLE : Q := 0.25.
Definition C_TH : Q := 120.0.
Definition R_TH : Q := 3.2.
Definition T_AMB : Q := 25.0.

Record trajectory : Type := mkTrajectory {
  t_h : list Q; p_sys : list Q; soc : list Q; temp : list Q
}.

(** The power profile before noise: four masked assignments on zeros. *)
Definition profile (t_h : list Q) : list Q :=
  let p0 := np_zeros (length t_h) in
  let p1 := masked_set (fun t => Qlt_bool t 1) 0.5 t_h p0 in
  let p2 := masked_set (fun t => Qle_bool 1 t && Qlt_bool t 2) 1.8 t_h p1 in
  let p3 := masked_set (fun t => Qle_bool 2 t && Qlt_bool t 3) 4.5 t_h p2 in
  masked_set (fun t => Qle_bool 3 t) 2.5 t_h p3.

(** [p_sys += noise]: cell by cell. *)
Fixpoint add_cells (a b : list Q) : list Q :=
  match a, b with
  | x :: a', y :: b' => (x + y) :: add_cells a' b'
  | _, _ => []
  end.

(** [for i in range(len(t_h)-1)] of the SOC loop over the power cells
    still to be consumed. *)
Fixpoint soc_loop (dt_s : Q) (p : list Q) (soc_i : Q) : list Q :=
  match p with
  | [] => []
  | p_i :: p' =>
      let p_bat := p_i + P_IDLE in
      let soc1 := soc_i - (p_bat / E_MAX_WH) * (dt_s / 3600) in
      soc1 :: soc_loop dt_s p' soc1
  end.

(** The temperature loop, likewise. *)
Fixpoint temp_loop (dt_s : Q) (p : list Q) (temp_i : Q) : list Q :=
  match p with
  | [] => []
  | p_i :: p' =>
      let p_bat := p_i + P_IDLE in
      let temp1 := thermal_step_gifs T_AMB R_TH C_TH dt_s p_bat temp_i in
      temp1 :: temp_loop dt_s p' temp1
  end.

(** [get_live_data(duration_h, dt_s)] with the relative noise level as a
    parameter: the script writes [np.random.normal(0, 0.1 * p_sys, ...)],
    here [0.1] is [noise_std].  A negative scale makes
    [np.random.normal] raise. *)
Definition get_live_data_noise (noise_std : Q) (duration_h dt_s : Q) : Rng.M (result trajectory) :=
  match np_arange (duration_h * 3600) dt_s with
  | Raise e => Rng.ret (Raise e)
  | Ok t_s =>
      let t_h := map (fun t => t / 3600) t_s in
      let p0 := profile t_h in
      let scale := map (fun p => noise_std * p) p0 in
      if existsb (fun s => Qlt_bool s 0) scale then Rng.ret (Raise ValueError)
      else
        Rng.mbind (Rng.normal_array 0 scale) (fun noise =>
        let p1 := add_cells p0 noise in
        let p_sys := map (fun p => np_maximum p 0.1) p1 in
        match t_h with
        | [] => Rng.ret (Raise IndexError)
        | _ :: _ =>
            let soc := 1.0 :: soc_loop dt_s (removelast p_sys) 1.0 in
            let temp := T_AMB :: temp_loop dt_s (removelast p_sys) T_AMB in
            Rng.ret (Ok (mkTrajectory t_h p_sys soc temp))
        end)
  end.

(** The script's function. *)
Definition get_live_data (duration_h dt_s : Q) : Rng.M (result trajectory) :=
  get_live_data_noise 0.1 duration_h dt_s.

(** The component stacks of [make_power_gif], one cell. *)
Definition p_cpu (p : Q) : Q := p * 0.4.
Definition p_screen (p : Q) : Q := p * 0.35 + 0.5.
Definition p_modem (p : Q) : Q := p * 0.25.

(** The power the SOC and temperature loops use for a cell. *)
Definition p_bat (p : Q) : Q := p + P_IDLE.

(** [make_stochastic_gif]: the independent runs, each one call of
    [get_live_data] on the generator the previous call left; the script
    fixes twenty runs. *)
Fixpoint runs (noise_std duration_h dt_s : Q) (n_runs : nat) : Rng.M (result (list (list Q))) :=
  match n_runs with
  | O => Rng.ret (Ok [])
  | S n' =>
      Rng.mbind (get_live_data_noise noise_std duration_h dt_s) (fun r =>
      match r with
      | Raise e => Rng.ret (Raise e)
      | Ok tr =>
          Rng.mbind (runs noise_std duration_h dt_s n') (fun rest =>
          Rng.ret (bind rest (fun rs => Ok (soc tr :: rs))))
      end)
  end.

(** [np.mean(rows, axis=0)] for rows of [width] cells: the column sums
    over the number of rows. *)
Definition np_mean_axis0 (rows : list (list Q)) (width : nat) : list Q :=
  map (fun k => fold_left Qplus (map (fun r => nth k r 0) rows) 0 / of_nat (length rows))
      (seq 0 width).

(** The two things [update(frame)] draws: a run's line and the mean line. *)
Definition line_y (run : list Q) (frame : nat) : list Q :=
  map (fun s => s * 100) (firstn frame run).

Definition mean_y (rs : list (list Q)) (frame : nat) : list Q :=
  map (fun m => m * 100)
      (np_mean_axis0 (map (firstn frame) rs) (Nat.min frame (length (hd [] rs)))).

End Live.

(** ** The scripts' own arithmetic

    Where rounding decides a claim, the same formulas are written once
    more on binary64 floats ([PrimFloat]: IEEE 754 with round to nearest,
    ties to even, the arithmetic of Python's [float] and of numpy's
    [float64]).  [x ** 2.0] is taken as the correctly rounded square
    [x * x]; a draw is the standard-normal value [z] that
    [np.random.normal(loc, scale)] turns into [loc + scale * z]. *)

Module B64.

Import PrimFloat.
#[local] Set Warnings "-inexact-float".
Local Open Scope float_scope.

(** A Python [int] operand, converted without error while below 2^53. *)
Fixpoint of_nat (n : nat) : float :=
  match n with
  | O => 0
  | S n' => of_nat n' + 1
  end.

Definition normal (loc scale z : float) : float := loc + scale * z.

(** The draw that leaves a value at its location. *)
Definition zero_draw : float := 0.

(** [(a + c) / 2], the arithmetic mean of two values. *)
Definition mean_of_two (a c : float) : float := (a + c) / 2.

(** [a == c] on floats. *)
Definition same (a c : float) : bool := eqb a c.

(** *** generate_comprehensive_lives.py: the transition composer *)

Definition T_REF : float := 25.0.
Definition P_CPU_STATIC : float := 0.40.
Definition K_CPU_BASE : float := 5.0.
Definition ALPHA_CPU_T : float := 0.002.
Definition temp_sim : float := 35.0.

Record scenario : Type := mkScenario {
  u_s : float; b : float; U : float; Rdl : float; Rul : float;
  Srx : float; Stx : float; f_g : float
}.

Definition Idle : scenario := mkScenario 0 0.0 0.05 0.10 0.05 0.20 0.20 0.01.
Definition Browsing : scenario := mkScenario 1 0.4 0.80 5.00 0.50 0.30 0.30 0.02.
Definition Video : scenario := mkScenario 1 0.6 1.00 6.00 0.50 0.30 0.30 0.02.
Definition Gaming : scenario := mkScenario 1 0.7 1.605 1.00 0.20 0.25 0.25 0.01.
Definition Navigation : scenario := mkScenario 1 0.6 0.90 2.00 0.20 0.35 0.35 0.80.

Record breakdown : Type := mkBreakdown {
  p_cpu : float; p_scr : float; p_mdm : float; p_misc : float
}.

(** [get_comp_power] on the catalog entry [s_data]. *)
Definition comp_power (s_data : scenario) : breakdown :=
  mkBreakdown
    (P_CPU_STATIC + K_CPU_BASE * (U s_data * U s_data) * (1 + ALPHA_CPU_T * (temp_sim - T_REF)))
    (u_s s_data * (200.0 * 0.007 * b s_data + 0.20))
    (0.40 + (Rdl s_data * 0.05 + Rul s_data * 0.08) + (Srx s_data * 0.25 + Stx s_data * 0.25))
    (0.25 + 0.1 + (if ltb 0 (u_s s_data) then 0.2 + 0.063 * f_g s_data else 0)).

Definition interp (p_start p_end alpha : float) : float :=
  p_start + (p_end - p_start) * alpha.

(** The entry the inner loop appends at [step] of a segment of [dur]
    steps when the jitter draw is [z]. *)
Definition entry (p_start p_end : breakdown) (dur step : nat) (z : float) : breakdown :=
  let alpha := of_nat step / of_nat dur in
  let j := normal 1.0 0.015 z in
  mkBreakdown
    (interp (p_cpu p_start) (p_cpu p_end) alpha * j)
    (interp (p_scr p_start) (p_scr p_end) alpha * j)
    (interp (p_mdm p_start) (p_mdm p_end) alpha * j)
    (interp (p_misc p_start) (p_misc p_end) alpha * j).

(** *** generate_live_gifs.py: the charge of a run and the mean line *)

Definition E_MAX_WH : float := 22.0.
Definition P_IDLE : float := 0.25.

(** The four masked assignments on a cell of [np.zeros_like(t_h)]. *)
Definition profile_cell (t : float) : float :=
  let p := 0 in
  let p := if ltb t 1 then 0.5 else p in
  let p := if (leb 1 t && ltb t 2)%bool then 1.8 else p in
  let p := if (leb 2 t && ltb t 3)%bool then 4.5 else p in
  if leb 3 t then 2.5 else p.

Definition np_maximum (a c : float) : float := if ltb a c then c else a.

(** [p_sys] after the noise and the floor, from the draws [z]. *)
Fixpoint p_sys_cells (t_h z : list float) : list float :=
  match t_h, z with
  | t :: t_h', z_k :: z' =>
      let p := profile_cell t in
      np_maximum (p + normal 0 (0.1 * p) z_k) 0.1 :: p_sys_cells t_h' z'
  | _, _ => []
  end.

Fixpoint soc_loop (dt_s : nat) (p : list float) (soc_i : float) : list float :=
  match p with
  | [] => []
  | p_i :: p' =>
      let p_bat := p_i + P_IDLE in
      let soc1 := soc_i - (p_bat / E_MAX_WH) * (of_nat dt_s / 3600) in
      soc1 :: soc_loop dt_s p' soc1
  end.

(** The charge array of [get_live_data(duration_h, dt_s)] for integer
    arguments (the script passes 4 and 60) and a positive step: the grid
    is the integers [0, dt_s, 2 * dt_s, ...] below [duration_h * 3600]. *)
Definition live_soc (duration_h dt_s : nat) (z : list float) : list float :=
  let len := ((duration_h * 3600 + dt_s - 1) / dt_s)%nat in
  let t_h := map (fun k => of_nat (k * dt_s) / 3600) (seq 0 len) in
  let p_sys := p_sys_cells t_h z in
  match t_h with
  | [] => []
  | _ :: _ => 1.0 :: soc_loop dt_s (removelast p_sys) 1.0
  end.

(** [make_stochastic_gif]: one charge array per run, run [k] on the
    draws [nth k draws]. *)
Definition runs (duration_h dt_s : nat) (draws : list (list float)) : list (list float) :=
  map (live_soc duration_h dt_s) draws.

(** [np.mean(rows, axis=0)]: the rows are added in order, cell by cell,
    and the sums divided by the number of rows. *)
Definition np_mean_axis0 (rows : list (list float)) (width : nat) : list float :=
  map (fun k => fold_left add (map (fun r => nth k r 0) rows) 0 / of_nat (length rows))
      (seq 0 width).

Definition line_y (run : list float) (frame : nat) : list float :=
  map (fun s => s * 100) (firstn frame run).

Definition mean_y (rs : list (list float)) (frame : nat) : list float :=
  map (fun m => m * 100)
      (np_mean_axis0 (map (firstn frame) rs) (Nat.min frame (length (hd [] rs)))).

End B64.

(** * Properties *)

(** ** Arithmetic and list helpers *)

(** Division by a literal becomes a product with its inverse, which [lra]
    decides. *)
Ltac qdiv := unfold Qdiv in *; cbn [Qinv Qnum Qden] in *.
Ltac qlra := qdiv; lra.

Lemma Qle_bool_false (x y : Q) : Qle_bool x y = false <-> y < x.
Proof.
  split; intro H.
  - apply Qnot_le_lt. intro L. apply Qle_bool_iff in L. congruence.
  - destruct (Qle_bool x y) eqn:E; [|reflexivity].
    apply Qle_bool_iff in E. lra.
Qed.

Lemma Qlt_bool_true (x y : Q) : Qlt_bool x y = true <-> x < y.
Proof.
  unfold Qlt_bool. rewrite negb_true_iff. apply Qle_bool_false.
Qed.

Lemma Qlt_bool_false (x y : Q) : Qlt_bool x y = false <-> y <= x.
Proof.
  unfold Qlt_bool. rewrite negb_false_iff. apply Qle_bool_iff.
Qed.

Lemma py_max_0_pos (x : Q) : 0 < x -> py_max 0 x = x.
Proof.
  intro H. unfold py_max. apply Qle_bool_false in H. now rewrite H.
Qed.

Lemma py_max_0_nonpos (x : Q) : x <= 0 -> py_max 0 x = 0.
Proof.
  intro H. unfold py_max. apply Qle_bool_iff in H. now rewrite H.
Qed.

Lemma py_max_0_cases (x : Q) :
  (x <= 0 /\ py_max 0 x = 0) \/ (0 < x /\ py_max 0 x = x).
Proof.
  destruct (Qlt_le_dec 0 x) as [H|H].
  - right. split; [assumption | now apply py_max_0_pos].
  - left. split; [assumption | now apply py_max_0_nonpos].
Qed.

Lemma np_maximum_lower (a b : Q) : b <= np_maximum a b.
Proof.
  unfold np_maximum. destruct (Qle_bool b a) eqn:E.
  - now apply Qle_bool_iff.
  - lra.
Qed.

Lemma np_maximum_left (a b : Q) : b <= a -> np_maximum a b = a.
Proof.
  intro H. unfold np_maximum. apply Qle_bool_iff in H. now rewrite H.
Qed.

Lemma of_nat_nonneg (k : nat) : 0 <= of_nat k.
Proof.
  unfold of_nat. change 0 with (inject_Z 0). rewrite <- Zle_Qle. lia.
Qed.

Lemma of_nat_S (k : nat) : of_nat (S k) == of_nat k + 1.
Proof.
  unfold of_nat. rewrite Nat2Z.inj_succ, <- Z.add_1_r, inject_Z_plus. reflexivity.
Qed.

Lemma of_nat_pos (k : nat) : (0 < k)%nat -> 0 < of_nat k.
Proof.
  intro H. unfold of_nat. change 0 with (inject_Z 0). rewrite <- Zlt_Qlt. lia.
Qed.

Lemma of_nat_double (h : nat) : of_nat (2 * h) == 2 * of_nat h.
Proof.
  unfold of_nat. rewrite Nat2Z.inj_mul, inject_Z_mult. reflexivity.
Qed.

(** Neighbouring cells of an array are related by [R]. *)
Definition adjacent (R : Q -> Q -> Prop) (l : list Q) : Prop :=
  forall i x y, nth_error l i = Some x -> nth_error l (S i) = Some y -> R x y.

Lemma adjacent_one (R : Q -> Q -> Prop) (x : Q) : adjacent R [x].
Proof.
  intros [|[|i]] a c Ha Hc; simpl in *; discriminate.
Qed.

Lemma adjacent_cons (R : Q -> Q -> Prop) (x y : Q) (l : list Q) :
  R x y -> adjacent R (y :: l) -> adjacent R (x :: y :: l).
Proof.
  intros Hxy Hl [|i] a c Ha Hc; simpl in *.
  - congruence.
  - exact (Hl i a c Ha Hc).
Qed.

Lemma adjacent_tail (R : Q -> Q -> Prop) (x : Q) (l : list Q) :
  adjacent R (x :: l) -> adjacent R l.
Proof.
  intros H i a c Ha Hc. exact (H (S i) a c Ha Hc).
Qed.

(** Cell-wise equality of two arrays. *)
Definition same_cells (l1 l2 : list Q) : Prop := Forall2 Qeq l1 l2.

Lemma same_cells_refl (l : list Q) : same_cells l l.
Proof.
  induction l; constructor; [reflexivity | assumption].
Qed.

Lemma same_cells_nth (l1 l2 : list Q) (k : nat) (x y : Q) :
  same_cells l1 l2 -> nth_error l1 k = Some x -> nth_error l2 k = Some y -> x == y.
Proof.
  intro H. revert k. induction H as [|a c l1 l2 Hac _ IH]; intros [|k] Hx Hy; simpl in *;
    try discriminate.
  - injection Hx as <-. injection Hy as <-. exact Hac.
  - exact (IH k Hx Hy).
Qed.

(** ** The catalog *)

(** What the integrator needs of a parameter set: activity levels are not
    negative and the utilisation is moderate (the catalog peaks at 1.605). *)
Definition valid_scenario (s : Lives.scenario) : Prop :=
  0 <= Lives.u_s s /\ 0 <= Lives.b s /\ 0 <= Lives.U s <= 6 /\
  0 <= Lives.Rdl s /\ 0 <= Lives.Rul s /\ 0 <= Lives.Srx s /\ 0 <= Lives.Stx s /\
  0 <= Lives.f_g s.

Lemma lookup_catalog (s_name : string) (s : Lives.scenario) :
  Lives.lookup s_name Lives.scenarios_params = Ok s ->
  In (s_name, s) Lives.scenarios_params.
Proof.
  generalize Lives.scenarios_params as d.
  induction d as [|[k v] d IH]; simpl; intro H.
  - discriminate.
  - destruct (String.eqb k s_name) eqn:E.
    + apply String.eqb_eq in E. subst k. injection H as ->. now left.
    + right. now apply IH.
Qed.

Lemma catalog_valid (s_name : string) (s : Lives.scenario) :
  Lives.lookup s_name Lives.scenarios_params = Ok s -> valid_scenario s.
Proof.
  intro H. apply lookup_catalog in H. simpl in H.
  repeat (destruct H as [H|H]; [injection H as _ <-; unfold valid_scenario; simpl; lra|]).
  contradiction.
Qed.

Lemma P_gps_nonneg (s : Lives.scenario) : valid_scenario s -> 0 <= Lives.P_gps s.
Proof.
  intros (_ & _ & _ & _ & _ & _ & _ & Hf). unfold Lives.P_gps.
  destruct (Qlt_bool 0 (Lives.u_s s)); lra.
Qed.

Lemma U_square (s : Lives.scenario) : Lives.U s ^ Lives.GAMMA_CPU == Lives.U s * Lives.U s.
Proof.
  unfold Lives.GAMMA_CPU. simpl. reflexivity.
Qed.

Lemma U_square_bounds (s : Lives.scenario) :
  valid_scenario s -> 0 <= Lives.U s ^ Lives.GAMMA_CPU <= 36.
Proof.
  intros (_ & _ & HU & _). rewrite U_square. nra.
Qed.

(** ** C10: one thermal step, written twice *)

(** C10.  The temperature update of [generate_comprehensive_lives.py],
    [T + (p - (T - T_amb)/R_th) * (dt_s/C_th)], and the update of
    [generate_live_gifs.py] and [generate_more_gifs.py],
    [T + ((p/C_th) - (T - T_amb)/(R_th*C_th)) * dt_s], are the same
    rational function of their inputs whenever [R_th] and [C_th] are not
    zero. *)
Theorem thermal_step_same (T_amb R_th C_th dt_s p T : Q) :
  ~ R_th == 0 -> ~ C_th == 0 ->
  thermal_step_lives T_amb R_th C_th dt_s p T == thermal_step_gifs T_amb R_th C_th dt_s p T.
Proof.
  intros HR HC. unfold thermal_step_lives, thermal_step_gifs. cbv zeta.
  field. split; assumption.
Qed.

Lemma thermal_step_same_witness :
  thermal_step_lives Lives.T_AMB Lives.R_TH Lives.C_TH 60 1.2715 25.0
  == thermal_step_gifs Lives.T_AMB Lives.R_TH Lives.C_TH 60 1.2715 25.0.
Proof.
  apply (thermal_step_same Lives.T_AMB Lives.R_TH Lives.C_TH 60 1.2715 25.0);
    unfold Lives.R_TH, Lives.C_TH; lra.
Defined.

(** ** C2: the component breakdowns *)

Lemma comp_power_nonneg (s : Lives.scenario) :
  valid_scenario s ->
  0 <= Lives.p_cpu (Lives.comp_power s) /\ 0 <= Lives.p_scr (Lives.comp_power s) /\
  0 <= Lives.p_mdm (Lives.comp_power s) /\ 0 <= Lives.p_misc (Lives.comp_power s).
Proof.
  intro V. pose proof (U_square_bounds s V) as HU. pose proof (P_gps_nonneg s V) as HG.
  destruct V as (Hu & Hb & _ & Hdl & Hul & Hrx & Htx & Hf).
  unfold Lives.comp_power, Lives.P_gps in *. cbn [Lives.p_cpu Lives.p_scr Lives.p_mdm Lives.p_misc].
  unfold Lives.P_CPU_STATIC, Lives.K_CPU_BASE, Lives.ALPHA_CPU_T, Lives.temp_sim, Lives.T_REF.
  set (u2 := Lives.U s ^ Lives.GAMMA_CPU) in *.
  set (g := if Qlt_bool 0 (Lives.u_s s) then 0.2 + 0.063 * Lives.f_g s else 0) in *.
  repeat split; nra.
Qed.

Lemma comp_power_sum (s : Lives.scenario) :
  Lives.p_cpu (Lives.comp_power s) + Lives.p_scr (Lives.comp_power s)
  + Lives.p_mdm (Lives.comp_power s) + Lives.p_misc (Lives.comp_power s)
  == Lives.scenario_power s Lives.temp_sim.
Proof.
  unfold Lives.comp_power, Lives.scenario_power, Lives.P_screen, Lives.P_proc,
    Lives.P_modem, Lives.P_gps, Lives.P_misc.
  cbn [Lives.p_cpu Lives.p_scr Lives.p_mdm Lives.p_misc].
  set (u2 := Lives.U s ^ Lives.GAMMA_CPU).
  set (g := if Qlt_bool 0 (Lives.u_s s) then 0.2 + 0.063 * Lives.f_g s else 0).
  ring.
Qed.

Lemma scenario_locals_nonneg (s : Lives.scenario) (T_curr : Q) :
  valid_scenario s -> Lives.T_REF - 500 <= T_curr ->
  0 <= Lives.P_screen s /\ 0 <= Lives.P_proc s T_curr /\ 0 <= Lives.P_modem s /\
  0 <= Lives.P_gps s /\ 0 <= Lives.P_misc.
Proof.
  intros V HT. pose proof (U_square_bounds s V) as HU. pose proof (P_gps_nonneg s V) as HG.
  destruct V as (Hu & Hb & _ & Hdl & Hul & Hrx & Htx & Hf).
  unfold Lives.P_screen, Lives.P_proc, Lives.P_modem, Lives.P_misc,
    Lives.P_CPU_STATIC, Lives.K_CPU_BASE, Lives.ALPHA_CPU_T, Lives.T_REF in *.
  set (u2 := Lives.U s ^ Lives.GAMMA_CPU) in *.
  repeat split; try assumption; nra.
Qed.

(** C2 (as the code has it).  In [generate_comprehensive_lives.py] the
    four components [get_comp_power] returns for a catalog scenario are
    not negative and add up to [get_scenario_power] at the composer's
    temperature [temp_sim], the total the integrator computes at that
    temperature; the five terms [get_scenario_power] adds are not negative
    at any temperature from [T_REF - 500] up.  In [generate_live_gifs.py]
    the three stacks of [make_power_gif] are not negative for a cell
    [p >= 0.1] and add up to [p + 0.5], which is the integrator's
    [p_bat = p + P_IDLE] plus [0.25]. *)
Theorem breakdown_sums :
  (forall s_name s, Lives.lookup s_name Lives.scenarios_params = Ok s ->
     (0 <= Lives.p_cpu (Lives.comp_power s) /\ 0 <= Lives.p_scr (Lives.comp_power s) /\
      0 <= Lives.p_mdm (Lives.comp_power s) /\ 0 <= Lives.p_misc (Lives.comp_power s)) /\
     Lives.p_cpu (Lives.comp_power s) + Lives.p_scr (Lives.comp_power s)
     + Lives.p_mdm (Lives.comp_power s) + Lives.p_misc (Lives.comp_power s)
     == Lives.scenario_power s Lives.temp_sim /\
     Lives.get_scenario_power s_name Lives.temp_sim = Ok (Lives.scenario_power s Lives.temp_sim) /\
     Lives.get_comp_power s_name = Ok (Lives.comp_power s) /\
     (forall T_curr, Lives.T_REF - 500 <= T_curr ->
        0 <= Lives.P_screen s /\ 0 <= Lives.P_proc s T_curr /\ 0 <= Lives.P_modem s /\
        0 <= Lives.P_gps s /\ 0 <= Lives.P_misc)) /\
  (forall p, 0.1 <= p ->
     0 <= Live.p_cpu p /\ 0 <= Live.p_screen p /\ 0 <= Live.p_modem p /\
     Live.p_cpu p + Live.p_screen p + Live.p_modem p == Live.p_bat p + 0.25).
Proof.
  split.
  - intros s_name s H. pose proof (catalog_valid s_name s H) as V.
    split; [now apply comp_power_nonneg|].
    split; [apply comp_power_sum|].
    split; [unfold Lives.get_scenario_power; now rewrite H|].
    split; [unfold Lives.get_comp_power; now rewrite H|].
    intros T_curr HT. now apply scenario_locals_nonneg.
  - intros p Hp. unfold Live.p_cpu, Live.p_screen, Live.p_modem, Live.p_bat, Live.P_IDLE.
    repeat split; lra.
Qed.

(** C2 fails as stated: for the cell [p_sys = 0.5] the stacks of
    [make_power_gif] add up to [1.0], the integrator uses
    [p_bat = 0.75]. *)
Lemma breakdown_sum_differs :
  Live.p_cpu 0.5 + Live.p_screen 0.5 + Live.p_modem 0.5 == 1.0 /\
  Live.p_bat 0.5 == 0.75 /\
  ~ Live.p_cpu 0.5 + Live.p_screen 0.5 + Live.p_modem 0.5 == Live.p_bat 0.5.
Proof.
  unfold Live.p_cpu, Live.p_screen, Live.p_modem, Live.p_bat, Live.P_IDLE.
  repeat split; lra.
Qed.

(** ** C9: the transition composer *)

(** The entry the inner loop appends at [step] with jitter [j]. *)
Definition entry (p_start p_end : Lives.breakdown) (dur step : nat) (j : Q) : Lives.breakdown :=
  let alpha := of_nat step / of_nat dur in
  Lives.mkBreakdown
    (Lives.interp (Lives.p_cpu p_start) (Lives.p_cpu p_end) alpha * j)
    (Lives.interp (Lives.p_scr p_start) (Lives.p_scr p_end) alpha * j)
    (Lives.interp (Lives.p_mdm p_start) (Lives.p_mdm p_end) alpha * j)
    (Lives.interp (Lives.p_misc p_start) (Lives.p_misc p_end) alpha * j).

(** Every component of [e] is the mean of that component of [p] and [q]. *)
Definition mean_of (e p q : Lives.breakdown) : Prop :=
  Lives.p_cpu e == (Lives.p_cpu p + Lives.p_cpu q) / 2 /\
  Lives.p_scr e == (Lives.p_scr p + Lives.p_scr q) / 2 /\
  Lives.p_mdm e == (Lives.p_mdm p + Lives.p_mdm q) / 2 /\
  Lives.p_misc e == (Lives.p_misc p + Lives.p_misc q) / 2.

Section Segment.

Variables p_start p_end : Lives.breakdown.
Variable dur : nat.

Lemma segment_length (n step : nat) (st : Rng.state) :
  length (fst (Lives.segment p_start p_end dur step n st)) = n.
Proof.
  revert step st. induction n as [|n IH]; intros step st; [reflexivity|].
  simpl. unfold Rng.mbind, Rng.normal, Rng.ret.
  specialize (IH (S step) (fun k => st (S k))).
  destruct (Lives.segment p_start p_end dur (S step) n (fun k => st (S k))) as [rest st'].
  simpl in *. now rewrite IH.
Qed.

Lemma segment_state (n step : nat) (st : Rng.state) (i : nat) :
  snd (Lives.segment p_start p_end dur step n st) i = st (n + i)%nat.
Proof.
  revert step st. induction n as [|n IH]; intros step st; [reflexivity|].
  simpl. unfold Rng.mbind, Rng.normal, Rng.ret.
  specialize (IH (S step) (fun k => st (S k))).
  destruct (Lives.segment p_start p_end dur (S step) n (fun k => st (S k))) as [rest st'].
  simpl in *. exact IH.
Qed.

Lemma segment_nth (n step : nat) (st : Rng.state) (k : nat) :
  (k < n)%nat ->
  nth_error (fst (Lives.segment p_start p_end dur step n st)) k
  = Some (entry p_start p_end dur (step + k) (1.0 + 0.015 * st k)).
Proof.
  revert step st k. induction n as [|n IH]; intros step st k Hk; [lia|].
  simpl. unfold Rng.mbind, Rng.normal, Rng.ret.
  specialize (IH (S step) (fun i => st (S i))).
  destruct (Lives.segment p_start p_end dur (S step) n (fun i => st (S i))) as [rest st'].
  simpl in *. destruct k as [|k]; simpl.
  - rewrite Nat.add_0_r. reflexivity.
  - rewrite IH by lia. now rewrite Nat.add_succ_r.
Qed.

End Segment.

Lemma entry_midpoint (p_start p_end : Lives.breakdown) (h : nat) (j : Q) :
  (0 < h)%nat -> j == 1 -> mean_of (entry p_start p_end (2 * h) h j) p_start p_end.
Proof.
  intros Hh Hj. pose proof (of_nat_pos h Hh) as Hpos.
  assert (Ha : of_nat h / of_nat (2 * h) == 1 / 2).
  { rewrite of_nat_double. field. lra. }
  unfold mean_of, entry, Lives.interp. cbv zeta.
  cbn [Lives.p_cpu Lives.p_scr Lives.p_mdm Lives.p_misc].
  rewrite Ha, Hj. repeat split; field.
Qed.

(** C9 (in exact arithmetic).  For a sequence of two segments whose
    durations are even, the entry the composer produces at the midpoint
    of each segment ([alpha = 0.5]) has, when the jitter drawn for that
    entry is the factor 1 (the draw is 0), every component equal, as an
    exact rational, to the arithmetic mean of that component at the
    segment's start scenario and at its end scenario. *)
Theorem midpoint_is_mean (a b c : string) (d0 h1 h2 : nat)
    (pa pb pc : Lives.breakdown) (st : Rng.state) :
  Lives.get_comp_power a = Ok pa ->
  Lives.get_comp_power b = Ok pb ->
  Lives.get_comp_power c = Ok pc ->
  (0 < h1)%nat -> (0 < h2)%nat ->
  st h1 == 0 -> st (2 * h1 + h2)%nat == 0 ->
  exists l e1 e2,
    fst (Lives.compose [(a, d0); (b, (2 * h1)%nat); (c, (2 * h2)%nat)] st) = Ok l /\
    length l = (2 * h1 + 2 * h2)%nat /\
    nth_error l h1 = Some e1 /\ mean_of e1 pa pb /\
    nth_error l (2 * h1 + h2) = Some e2 /\ mean_of e2 pb pc.
Proof.
  intros Ha Hb Hc Hh1 Hh2 Hz1 Hz2.
  unfold Lives.compose. cbn [Lives.segments]. rewrite Ha, Hb, Hc.
  unfold Rng.mbind, Rng.ret.
  pose proof (segment_length pa pb (2 * h1) (2 * h1) 0 st) as L1.
  pose proof (segment_nth pa pb (2 * h1) (2 * h1) 0 st h1) as N1.
  pose proof (segment_state pa pb (2 * h1) (2 * h1) 0 st) as S1.
  destruct (Lives.segment pa pb (2 * h1) 0 (2 * h1) st) as [here1 st1].
  cbn [fst snd] in *.
  pose proof (segment_length pb pc (2 * h2) (2 * h2) 0 st1) as L2.
  pose proof (segment_nth pb pc (2 * h2) (2 * h2) 0 st1 h2) as N2.
  destruct (Lives.segment pb pc (2 * h2) 0 (2 * h2) st1) as [here2 st2].
  cbn [fst snd bind] in *.
  exists (here1 ++ here2 ++ []).
  exists (entry pa pb (2 * h1) h1 (1.0 + 0.015 * st h1)).
  exists (entry pb pc (2 * h2) h2 (1.0 + 0.015 * st1 h2)).
  split; [reflexivity|].
  split; [rewrite !length_app, L1, L2; simpl; lia|].
  split; [rewrite nth_error_app1 by lia; apply N1; lia|].
  split; [apply entry_midpoint; [assumption | rewrite Hz1; lra]|].
  split.
  - rewrite nth_error_app2 by lia. rewrite L1.
    replace (2 * h1 + h2 - 2 * h1)%nat with h2 by lia.
    rewrite nth_error_app1 by lia. apply N2. lia.
  - apply entry_midpoint; [assumption|]. rewrite S1, Hz2. lra.
Qed.

Lemma midpoint_is_mean_witness :
  exists pa pb pc l e1 e2,
    Lives.get_comp_power "Idle" = Ok pa /\
    Lives.get_comp_power "Browsing" = Ok pb /\
    Lives.get_comp_power "Gaming" = Ok pc /\
    fst (Lives.compose [("Idle"%string, 30%nat); ("Browsing"%string, (2 * 25)%nat);
                        ("Gaming"%string, (2 * 35)%nat)] (Rng.const 0)) = Ok l /\
    length l = (2 * 25 + 2 * 35)%nat /\
    nth_error l 25 = Some e1 /\ mean_of e1 pa pb /\
    nth_error l (2 * 25 + 35) = Some e2 /\ mean_of e2 pb pc.
Proof.
  eexists; eexists; eexists.
  assert (A : Lives.get_comp_power "Idle" = Ok (Lives.comp_power
            (Lives.mkScenario 0 0.0 0.05 0.10 0.05 0.20 0.20 0.01))) by reflexivity.
  assert (B : Lives.get_comp_power "Browsing" = Ok (Lives.comp_power
            (Lives.mkScenario 1 0.4 0.80 5.00 0.50 0.30 0.30 0.02))) by reflexivity.
  assert (C : Lives.get_comp_power "Gaming" = Ok (Lives.comp_power
            (Lives.mkScenario 1 0.7 1.605 1.00 0.20 0.25 0.25 0.01))) by reflexivity.
  destruct (midpoint_is_mean "Idle" "Browsing" "Gaming" 30 25 35 _ _ _ (Rng.const 0) A B C)
    as (l & e1 & e2 & H); [lia | lia | reflexivity | reflexivity |].
  exists l, e1, e2. split; [exact A|]. split; [exact B|]. split; [exact C|]. exact H.
Defined.

(** C9 fails as stated on the script's floats: in the Browsing to Gaming
    segment of the script's checkpoints (70 steps) the entry at step 35
    has [alpha = 0.5]; with the jitter draw 0 (factor 1.0) its processor
    component is [8.600863750000002], while the mean of the processor
    power of the two scenarios is [8.6008637500000003], one unit in the
    last place below. *)
Lemma midpoint_rounds_in_binary64 :
  B64.same
    (B64.p_cpu (B64.entry (B64.comp_power B64.Browsing) (B64.comp_power B64.Gaming)
                  70 35 B64.zero_draw))
    (B64.mean_of_two (B64.p_cpu (B64.comp_power B64.Browsing))
                     (B64.p_cpu (B64.comp_power B64.Gaming)))
  = false.
Proof.
  vm_compute. reflexivity.
Qed.

(** ** The integrator of generate_comprehensive_lives.py *)

Definition non_increasing : list Q -> Prop := adjacent (fun x y => y <= x).
Definition non_decreasing : list Q -> Prop := adjacent (fun x y => x <= y).
Definition strictly_decreasing : list Q -> Prop := adjacent (fun x y => y < x).

(** The temperature is at or above ambient and the scenario's power at
    that temperature covers the convective loss: the next Euler step does
    not cool. *)
Definition heating (s : Lives.scenario) (T : Q) : Prop :=
  Lives.T_AMB <= T /\ (T - Lives.T_AMB) / Lives.R_TH <= Lives.scenario_power s T.

(** The slope of the power in the temperature. *)
Definition feedback (s : Lives.scenario) : Q :=
  Lives.K_CPU_BASE * (Lives.U s ^ Lives.GAMMA_CPU) * Lives.ALPHA_CPU_T.

Lemma power_affine (s : Lives.scenario) (T T' : Q) :
  Lives.scenario_power s T' == Lives.scenario_power s T + feedback s * (T' - T).
Proof.
  unfold Lives.scenario_power, Lives.P_proc, feedback. ring.
Qed.

Lemma feedback_bounds (s : Lives.scenario) :
  valid_scenario s -> 0 <= feedback s <= 0.36.
Proof.
  intro V. pose proof (U_square_bounds s V) as HU. unfold feedback.
  unfold Lives.K_CPU_BASE, Lives.ALPHA_CPU_T.
  set (u2 := Lives.U s ^ Lives.GAMMA_CPU) in *. lra.
Qed.

Lemma power_at_ambient (s : Lives.scenario) :
  valid_scenario s -> 1.15 <= Lives.scenario_power s Lives.T_AMB.
Proof.
  intro V. pose proof (U_square_bounds s V) as HU. pose proof (P_gps_nonneg s V) as HG.
  destruct V as (Hu & Hb & _ & Hdl & Hul & Hrx & Htx & Hf).
  unfold Lives.scenario_power, Lives.P_screen, Lives.P_proc, Lives.P_modem, Lives.P_misc,
    Lives.P_CPU_STATIC, Lives.K_CPU_BASE, Lives.ALPHA_CPU_T, Lives.T_REF, Lives.T_AMB in *.
  set (u2 := Lives.U s ^ Lives.GAMMA_CPU) in *.
  set (g := Lives.P_gps s) in *. nra.
Qed.

Lemma power_above_ambient (s : Lives.scenario) (T : Q) :
  valid_scenario s -> Lives.T_AMB <= T ->
  1.15 <= Lives.scenario_power s T.
Proof.
  intros V HT. pose proof (power_at_ambient s V) as H0.
  pose proof (feedback_bounds s V) as HF.
  rewrite (power_affine s Lives.T_AMB T). nra.
Qed.

Lemma heating_initial (s : Lives.scenario) : valid_scenario s -> heating s Lives.T_AMB.
Proof.
  intro V. pose proof (power_at_ambient s V) as H0. unfold heating. split; [lra|].
  unfold Lives.R_TH. qlra.
Qed.

(** One step from a heating state does not cool and ends in a heating
    state. *)
Lemma heating_step (s : Lives.scenario) (T : Q) :
  valid_scenario s -> heating s T ->
  T <= thermal_step_lives Lives.T_AMB Lives.R_TH Lives.C_TH 60 (Lives.scenario_power s T) T /\
  heating s (thermal_step_lives Lives.T_AMB Lives.R_TH Lives.C_TH 60 (Lives.scenario_power s T) T).
Proof.
  intros V [HT HG]. pose proof (feedback_bounds s V) as HF.
  unfold heating.
  rewrite (power_affine s T (thermal_step_lives _ _ _ _ _ _)).
  unfold thermal_step_lives. cbv zeta.
  set (p := Lives.scenario_power s T) in *. set (c := feedback s) in *.
  unfold Lives.R_TH, Lives.C_TH, Lives.T_AMB in *. qdiv.
  assert (Hg : 0 <= p - (T - 25.0) * (10 # 22)) by lra.
  assert (Hcg : 0 <= c * (p - (T - 25.0) * (10 # 22))) by (apply Qmult_le_0_compat; lra).
  repeat split; lra.
Qed.

Lemma get_scenario_power_ok (s_name : string) (s : Lives.scenario) (T : Q) :
  Lives.lookup s_name Lives.scenarios_params = Ok s ->
  Lives.get_scenario_power s_name T = Ok (Lives.scenario_power s T).
Proof.
  intro H. unfold Lives.get_scenario_power. now rewrite H.
Qed.

Lemma lives_soc_step (soc_i p : Q) :
  0 <= soc_i <= 1 -> 0 <= p ->
  0 <= py_max 0 (soc_i - (p / Lives.E_MAX_WH) * (1 / 60)) <= soc_i.
Proof.
  intros Hs Hp. unfold Lives.E_MAX_WH.
  destruct (py_max_0_cases (soc_i - (p / 22.0) * (1 / 60))) as [[Hx ->]|[Hx ->]]; qlra.
Qed.

Section LivesLoop.

Variable s_name : string.
Variable s : Lives.scenario.
Hypothesis Hlookup : Lives.lookup s_name Lives.scenarios_params = Ok s.
Hypothesis Hvalid : valid_scenario s.

(** From a charge in [[0,1]] and a heating state the loop returns, its
    charges never rise and stay in [[0,1]], its temperatures never fall. *)
Lemma lives_loop_monotone (n : nat) (soc_i temp_i : Q) :
  0 <= soc_i <= 1 -> heating s temp_i ->
  exists socs temps,
    Lives.loop s_name n soc_i temp_i = Ok (socs, temps) /\
    length socs = length temps /\ (length socs <= n)%nat /\
    non_increasing (soc_i :: socs) /\ Forall (fun x => 0 <= x <= 1) socs /\
    non_decreasing (temp_i :: temps).
Proof.
  revert soc_i temp_i. induction n as [|n IH]; intros soc_i temp_i Hs Hh.
  - exists [], []. simpl. repeat split; try apply adjacent_one; auto.
  - cbn [Lives.loop]. rewrite (get_scenario_power_ok s_name s temp_i Hlookup).
    cbn [bind]. cbv zeta.
    pose proof (heating_step s temp_i Hvalid Hh) as [Hup Hh1].
    pose proof (power_above_ambient s temp_i Hvalid (proj1 Hh)) as Hp.
    assert (Hp0 : 0 <= Lives.scenario_power s temp_i) by lra.
    pose proof (lives_soc_step soc_i _ Hs Hp0) as Hs1.
    set (soc1 := py_max 0 (soc_i - Lives.scenario_power s temp_i / Lives.E_MAX_WH * (1 / 60))) in *.
    set (temp1 := thermal_step_lives Lives.T_AMB Lives.R_TH Lives.C_TH 60
                    (Lives.scenario_power s temp_i) temp_i) in *.
    destruct (Qle_bool soc1 0) eqn:E.
    + exists [soc1], [temp1]. simpl. repeat split; try lia.
      * apply adjacent_cons; [lra | apply adjacent_one].
      * constructor; [lra | constructor].
      * apply adjacent_cons; [lra | apply adjacent_one].
    + destruct (IH soc1 temp1) as (socs & temps & Hl & Hlen & Hn & Hsoc & Hin & Htemp);
        [lra | assumption |].
      rewrite Hl. cbn [bind fst snd]. exists (soc1 :: socs), (temp1 :: temps).
      simpl. repeat split; try lia.
      * apply adjacent_cons; [lra | assumption].
      * constructor; [lra | assumption].
      * apply adjacent_cons; [lra | assumption].
Qed.

(** With the power bounded by [pmax] in every heating state and enough
    charge for [n] steps at [pmax], the loop runs all [n] steps: the
    charge falls strictly and stays positive. *)
Lemma lives_loop_full (pmax : Q) (n : nat) (soc_i temp_i : Q) :
  (forall T, heating s T -> Lives.scenario_power s T <= pmax) ->
  soc_i <= 1 -> heating s temp_i ->
  of_nat n * (pmax / Lives.E_MAX_WH * (1 / 60)) < soc_i ->
  exists socs temps,
    Lives.loop s_name n soc_i temp_i = Ok (socs, temps) /\
    length socs = n /\ length temps = n /\
    strictly_decreasing (soc_i :: socs) /\ Forall (fun x => 0 < x) socs /\
    non_decreasing (temp_i :: temps).
Proof.
  intro Hmax. revert soc_i temp_i. induction n as [|n IH]; intros soc_i temp_i Hs Hh Hen.
  - exists [], []. simpl. repeat split; try apply adjacent_one; auto.
  - cbn [Lives.loop]. rewrite (get_scenario_power_ok s_name s temp_i Hlookup).
    cbn [bind]. cbv zeta.
    pose proof (heating_step s temp_i Hvalid Hh) as [Hup Hh1].
    pose proof (power_above_ambient s temp_i Hvalid (proj1 Hh)) as Hp.
    pose proof (Hmax temp_i Hh) as Hpm.
    pose proof (of_nat_nonneg n) as Hn0.
    rewrite of_nat_S in Hen.
    set (p := Lives.scenario_power s temp_i) in *.
    assert (Hpos : 0 < soc_i - p / Lives.E_MAX_WH * (1 / 60)
                   /\ of_nat n * (pmax / Lives.E_MAX_WH * (1 / 60))
                      < soc_i - p / Lives.E_MAX_WH * (1 / 60)).
    { unfold Lives.E_MAX_WH in *. qdiv. split; nra. }
    destruct Hpos as [Hpos Hen1].
    rewrite (py_max_0_pos _ Hpos).
    set (soc1 := soc_i - p / Lives.E_MAX_WH * (1 / 60)) in *.
    set (temp1 := thermal_step_lives Lives.T_AMB Lives.R_TH Lives.C_TH 60 p temp_i) in *.
    assert (Hlt : soc1 < soc_i) by (unfold soc1, Lives.E_MAX_WH; qlra).
    apply Qle_bool_false in Hpos. rewrite Hpos. apply Qle_bool_false in Hpos.
    destruct (IH soc1 temp1) as (socs & temps & Hl & Hls & Hlt' & Hsoc & Hin & Htemp);
      [lra | assumption | assumption |].
    rewrite Hl. cbn [bind fst snd]. exists (soc1 :: socs), (temp1 :: temps).
    simpl. repeat split; try lia.
    + apply adjacent_cons; assumption.
    + constructor; assumption.
    + apply adjacent_cons; assumption.
Qed.

End LivesLoop.

Lemma np_linspace_length (stop : Q) (num : nat) : length (np_linspace stop num) = num.
Proof.
  unfold np_linspace. now rewrite length_map, length_seq.
Qed.

Lemma steps_tests (n : nat) :
  (Z.of_nat (S n) <? 0)%Z = false /\ (Z.of_nat (S n) =? 0)%Z = false /\
  (Z.to_nat (Z.of_nat (S n)) - 1)%nat = n /\ Z.to_nat (Z.of_nat (S n)) = S n.
Proof.
  split; [apply Z.ltb_ge; lia|].
  split; [apply Z.eqb_neq; lia|].
  split; [rewrite Nat2Z.id; lia | apply Nat2Z.id].
Qed.

Section LivesRun.

Variable s_name : string.
Variable s : Lives.scenario.
Hypothesis Hlookup : Lives.lookup s_name Lives.scenarios_params = Ok s.
Hypothesis Hvalid : valid_scenario s.

(** A call whose step count is [n + 1] returns; the charge never rises
    and stays in [[0,1]], the temperature never falls, and the three
    arrays have one common length of at most [n + 1]. *)
Lemma lives_run_monotone (duration_h : Q) (n : nat) :
  py_int (duration_h * 60) = Z.of_nat (S n) ->
  exists t,
    Lives.simulate_scenario_fixed s_name duration_h = Ok t /\
    length (Lives.soc t) = length (Lives.temp t) /\
    length (Lives.t_h t) = length (Lives.soc t) /\
    (length (Lives.soc t) <= S n)%nat /\
    non_increasing (Lives.soc t) /\ Forall (fun x => 0 <= x <= 1) (Lives.soc t) /\
    non_decreasing (Lives.temp t).
Proof.
  intro Hsteps. unfold Lives.simulate_scenario_fixed. cbv zeta. rewrite Hsteps.
  destruct (steps_tests n) as (-> & -> & -> & ->).
  destruct (lives_loop_monotone s_name s Hlookup Hvalid n 1.0 Lives.T_AMB)
    as (socs & temps & Hl & Hlen & Hn & Hsoc & Hin & Htemp);
    [lra | now apply heating_initial |].
  rewrite Hl. cbn [bind fst snd]. eexists. split; [reflexivity|].
  cbn [Lives.soc Lives.temp Lives.t_h].
  split; [simpl; lia|].
  split; [rewrite length_firstn, np_linspace_length; simpl; lia|].
  split; [simpl; lia|].
  split; [assumption|].
  split; [constructor; [lra | assumption] | assumption].
Qed.

(** With the power bounded by [pmax] and [n * pmax / E_MAX_WH / 60 < 1]
    the call runs all [n + 1] samples without depletion. *)
Lemma lives_run_full (pmax duration_h : Q) (n : nat) :
  (forall T, heating s T -> Lives.scenario_power s T <= pmax) ->
  py_int (duration_h * 60) = Z.of_nat (S n) ->
  of_nat n * (pmax / Lives.E_MAX_WH * (1 / 60)) < 1 ->
  exists t,
    Lives.simulate_scenario_fixed s_name duration_h = Ok t /\
    length (Lives.soc t) = S n /\ length (Lives.temp t) = S n /\
    length (Lives.t_h t) = S n /\
    strictly_decreasing (Lives.soc t) /\ Forall (fun x => 0 < x) (Lives.soc t) /\
    non_decreasing (Lives.temp t).
Proof.
  intros Hmax Hsteps Hen. unfold Lives.simulate_scenario_fixed. cbv zeta. rewrite Hsteps.
  destruct (steps_tests n) as (-> & -> & -> & ->).
  destruct (lives_loop_full s_name s Hlookup Hvalid pmax n 1.0 Lives.T_AMB Hmax)
    as (socs & temps & Hl & Hls & Hlt & Hsoc & Hin & Htemp);
    [lra | now apply heating_initial | lra |].
  rewrite Hl. cbn [bind fst snd]. eexists. split; [reflexivity|].
  cbn [Lives.soc Lives.temp Lives.t_h].
  split; [simpl; lia|].
  split; [simpl; lia|].
  split; [rewrite length_firstn, np_linspace_length; simpl; lia|].
  split; [assumption|].
  split; [constructor; [lra | assumption] | assumption].
Qed.

End LivesRun.

(** *** The catalog's Idle and Gaming parameter sets *)

Definition idle : Lives.scenario := Lives.mkScenario 0 0.0 0.05 0.10 0.05 0.20 0.20 0.01.
Definition gaming : Lives.scenario := Lives.mkScenario 1 0.7 1.605 1.00 0.20 0.25 0.25 0.01.

Lemma lookup_idle : Lives.lookup "Idle" Lives.scenarios_params = Ok idle.
Proof. reflexivity. Qed.

Lemma lookup_gaming : Lives.lookup "Gaming" Lives.scenarios_params = Ok gaming.
Proof. reflexivity. Qed.

Ltac scenario_arith :=
  unfold heating, Lives.scenario_power, Lives.P_screen, Lives.P_proc, Lives.P_modem,
    Lives.P_gps, Lives.P_misc, Lives.P_CPU_STATIC, Lives.K_CPU_BASE, Lives.ALPHA_CPU_T,
    Lives.GAMMA_CPU, Lives.T_REF, Lives.T_AMB, Lives.R_TH, idle, gaming in *;
  cbn [Lives.u_s Lives.b Lives.U Lives.Rdl Lives.Rul Lives.Srx Lives.Stx Lives.f_g] in *;
  cbn [Qpower Qpower_positive pow_pos Pos.iter_op] in *;
  repeat match goal with
         | H : context [Qlt_bool ?x ?y] |- _ =>
             let v := eval vm_compute in (Qlt_bool x y) in
             change (Qlt_bool x y) with v in H
         | |- context [Qlt_bool ?x ?y] =>
             let v := eval vm_compute in (Qlt_bool x y) in
             change (Qlt_bool x y) with v
         end;
  cbv iota in *; qdiv.

(** Idle draws [1.2715 W] at ambient and never more than [1.28 W]. *)
Lemma idle_power_bound (T : Q) : heating idle T -> Lives.scenario_power idle T <= 1.28.
Proof.
  intros [HT HG]. scenario_arith. lra.
Qed.

(** Gaming draws [15.601755 W] at ambient and never more than [16.6 W]. *)
Lemma gaming_power_bound (T : Q) : heating gaming T -> Lives.scenario_power gaming T <= 16.6.
Proof.
  intros [HT HG]. scenario_arith. lra.
Qed.

(** ** C3: Idle over twelve hours *)

Lemma idle_run :
  exists t,
    Lives.simulate_scenario_fixed "Idle" 12 = Ok t /\
    length (Lives.soc t) = 720%nat /\ length (Lives.temp t) = 720%nat /\
    length (Lives.t_h t) = 720%nat /\
    strictly_decreasing (Lives.soc t) /\ Forall (fun x => 0 < x) (Lives.soc t) /\
    non_decreasing (Lives.temp t).
Proof.
  apply (lives_run_full "Idle" idle lookup_idle (catalog_valid _ _ lookup_idle) 1.28 12 719).
  - exact idle_power_bound.
  - vm_compute. reflexivity.
  - vm_compute. reflexivity.
Qed.

(** C3 (as the code has it).  [simulate_scenario_fixed("Idle", 12)]
    (capacity 22 Wh, ambient 25, 60-second steps) returns all 720 samples:
    the charge falls strictly from every sample to the next, hence over
    the first 60 samples, and every sample of it is positive, so the
    battery is not empty at the twelve-hour mark and the trajectory is not
    cut. *)
Theorem idle_twelve_hours :
  exists t,
    Lives.simulate_scenario_fixed "Idle" 12 = Ok t /\
    length (Lives.soc t) = 720%nat /\
    strictly_decreasing (Lives.soc t) /\
    (forall i x y, (S i < 60)%nat ->
       nth_error (Lives.soc t) i = Some x -> nth_error (Lives.soc t) (S i) = Some y -> y < x) /\
    (forall k x, nth_error (Lives.soc t) k = Some x -> 0 < x).
Proof.
  destruct idle_run as (t & Ht & Hlen & _ & _ & Hdec & Hpos & _).
  exists t. split; [assumption|]. split; [assumption|]. split; [assumption|].
  split.
  - intros i x y _ Hx Hy. exact (Hdec i x y Hx Hy).
  - intros k x Hx. rewrite Forall_forall in Hpos. apply Hpos.
    now apply nth_error_In with k.
Qed.

(** C3 fails as stated: no sample of the twelve-hour Idle run has charge
    0.  Idle draws about 1.27 W, which empties 22 Wh in about 17.3 h. *)
Lemma idle_never_empty_in_twelve_hours :
  ~ exists t k x,
      Lives.simulate_scenario_fixed "Idle" 12 = Ok t /\ (k <= 720)%nat /\
      nth_error (Lives.soc t) k = Some x /\ x == 0.
Proof.
  intros (t & k & x & Ht & _ & Hx & H0).
  destruct idle_run as (t' & Ht' & _ & _ & _ & _ & Hpos & _).
  rewrite Ht in Ht'. injection Ht' as <-.
  rewrite Forall_forall in Hpos. apply nth_error_In in Hx. apply Hpos in Hx. lra.
Qed.

(** ** C6: Gaming over one hour *)

Lemma gaming_run :
  exists t,
    Lives.simulate_scenario_fixed "Gaming" 1 = Ok t /\
    length (Lives.soc t) = 60%nat /\ length (Lives.temp t) = 60%nat /\
    length (Lives.t_h t) = 60%nat /\
    strictly_decreasing (Lives.soc t) /\ Forall (fun x => 0 < x) (Lives.soc t) /\
    non_decreasing (Lives.temp t).
Proof.
  apply (lives_run_full "Gaming" gaming lookup_gaming (catalog_valid _ _ lookup_gaming) 16.6 1 59).
  - exact gaming_power_bound.
  - vm_compute. reflexivity.
  - vm_compute. reflexivity.
Qed.

(** C6.  [simulate_scenario_fixed("Gaming", 1)] (ambient 25, 60-second
    steps) returns 60 samples and there is no step [i] with [soc[i] > 0]
    where [temp[i+1] < temp[i]]; indeed the charge is positive at every
    sample and the temperature never falls. *)
Theorem gaming_one_hour_heats :
  exists t,
    Lives.simulate_scenario_fixed "Gaming" 1 = Ok t /\
    length (Lives.temp t) = 60%nat /\ length (Lives.soc t) = 60%nat /\
    hd_error (Lives.temp t) = Some Lives.T_AMB /\
    (forall i s_i T_i T_i1,
       nth_error (Lives.soc t) i = Some s_i -> 0 < s_i ->
       nth_error (Lives.temp t) i = Some T_i ->
       nth_error (Lives.temp t) (S i) = Some T_i1 ->
       ~ T_i1 < T_i) /\
    (forall i s_i, nth_error (Lives.soc t) i = Some s_i -> 0 < s_i).
Proof.
  pose proof gaming_run as (t & Ht & Hls & Hlt & _ & _ & Hpos & Hinc).
  exists t. split; [assumption|]. split; [assumption|]. split; [assumption|].
  split.
  - revert Ht. unfold Lives.simulate_scenario_fixed. cbv zeta.
    change (py_int (1 * 60)) with 60%Z. cbn [Z.ltb Z.eqb Z.compare].
    destruct (Lives.loop "Gaming" (Z.to_nat 60 - 1) 1.0 Lives.T_AMB) as [r|e];
      cbn [bind]; [|discriminate].
    intro H. injection H as <-. reflexivity.
  - split.
    + intros i s_i T_i T_i1 _ _ HT HT1 Hlt'. pose proof (Hinc i T_i T_i1 HT HT1) as Hle.
      cbv beta in Hle. lra.
    + intros i s_i Hs. rewrite Forall_forall in Hpos. apply Hpos.
      now apply nth_error_In with i.
Qed.

(** ** The integrator of generate_more_gifs.py *)

Lemma relax_length (dt_s t_amb : Q) (n : nat) (T : Q) :
  length (More.relax dt_s t_amb n T) = n.
Proof.
  revert T. induction n as [|n IH]; intro T; simpl; [reflexivity | now rewrite IH].
Qed.

Lemma more_loop_length (dt_s t_amb e_max : Q) (p : list Q) (soc_i temp_i : Q) :
  length (fst (More.loop dt_s t_amb e_max p soc_i temp_i)) = length p /\
  length (snd (More.loop dt_s t_amb e_max p soc_i temp_i)) = length p.
Proof.
  revert soc_i temp_i. induction p as [|p_i p IH]; intros soc_i temp_i; [now split|].
  cbn [More.loop]. cbv zeta.
  destruct (Qle_bool _ 0).
  - cbn [fst snd length]. now rewrite repeat_length, relax_length.
  - cbn [fst snd length]. destruct (IH (py_max 0 (soc_i - (p_i + More.P_IDLE) / e_max * (dt_s / 3600)))
      (thermal_step_gifs t_amb More.R_TH More.C_TH dt_s (p_i + More.P_IDLE) temp_i)) as [-> ->].
    now split.
Qed.










Section MoreLoop.

Variables dt_s t_amb e_max : Q.



(** With a power draw [p_bat >= 0] in every cell, a positive capacity and
    a step that is not negative, the charge never rises and stays in
    [[0,1]]. *)
Lemma more_loop_soc (p : list Q) (soc_i temp_i : Q) :
  0 < e_max -> 0 <= dt_s -> Forall (fun p_i => 0 <= p_i + More.P_IDLE) p ->
  0 <= soc_i <= 1 ->
  non_increasing (soc_i :: fst (More.loop dt_s t_amb e_max p soc_i temp_i)) /\
  Forall (fun x => 0 <= x <= 1) (fst (More.loop dt_s t_amb e_max p soc_i temp_i)).
Proof.
  intros He Hd Hp. revert soc_i temp_i.
  induction Hp as [|p_i p Hpi Hp IH]; intros soc_i temp_i Hs.
  - simpl. split; [apply adjacent_one | constructor].
  - cbn [More.loop]. cbv zeta.
    assert (Hdrop : 0 <= (p_i + More.P_IDLE) / e_max * (dt_s / 3600)).
    { apply Qmult_le_0_compat.
      - apply Qle_shift_div_l; [assumption | lra].
      - qlra. }
    set (drop := (p_i + More.P_IDLE) / e_max * (dt_s / 3600)) in *.
    assert (Hs1 : 0 <= py_max 0 (soc_i - drop) <= soc_i).
    { destruct (py_max_0_cases (soc_i - drop)) as [[Hx ->]|[Hx ->]]; lra. }
    set (soc1 := py_max 0 (soc_i - drop)) in *.
    destruct (Qle_bool soc1 0) eqn:E.
    + cbn [fst]. split.
      * simpl. apply adjacent_cons; [lra|].
        clear. induction (length p) as [|n IHn]; simpl.
        -- apply adjacent_one.
        -- apply adjacent_cons; [lra | exact IHn].
      * apply Forall_forall. intros x Hx. apply repeat_spec in Hx. subst x. lra.
    + cbn [fst]. destruct (IH soc1 (thermal_step_gifs t_amb More.R_TH More.C_TH dt_s
                                      (p_i + More.P_IDLE) temp_i)) as [Hni Hin]; [lra|].
      split.
      * apply adjacent_cons; [lra | assumption].
      * constructor; [lra | assumption].
Qed.

End MoreLoop.

(** *** The time grid *)

Lemma Qceiling_pos (x : Q) : 0 < x -> (0 < Qceiling x)%Z.
Proof.
  intro H. pose proof (Qle_ceiling x) as Hc.
  apply Z.lt_nge. intro Hle. rewrite Zle_Qle in Hle.
  set (c := inject_Z (Qceiling x)) in *. change (inject_Z 0) with (0 # 1) in Hle. lra.
Qed.

Lemma Qceiling_nonpos (x : Q) : x <= 0 -> (Qceiling x <= 0)%Z.
Proof.
  intro H. pose proof (Qceiling_lt x) as Hc.
  apply Z.lt_succ_r. rewrite <- Z.add_1_r.
  rewrite Zlt_Qlt, inject_Z_plus.
  unfold Z.sub in Hc. rewrite inject_Z_plus in Hc.
  set (c := inject_Z (Qceiling x)) in *.
  change (inject_Z (- (1))) with (-1 # 1) in Hc.
  change (inject_Z 0) with (0 # 1). change (inject_Z 1) with (1 # 1). lra.
Qed.

Lemma Qeq_bool_false (x y : Q) : ~ x == y -> Qeq_bool x y = false.
Proof.
  intro H. destruct (Qeq_bool x y) eqn:E; [|reflexivity].
  apply Qeq_bool_iff in E. contradiction.
Qed.

Lemma arange_len_pos (stop step : Q) : 0 < stop -> 0 < step -> (0 < arange_len stop step)%nat.
Proof.
  intros H1 H2. unfold arange_len.
  assert (0 < stop / step) by (apply Qlt_shift_div_l; lra).
  pose proof (Qceiling_pos _ H). lia.
Qed.

Lemma arange_len_zero (stop step : Q) : stop / step <= 0 -> arange_len stop step = 0%nat.
Proof.
  intro H. unfold arange_len. pose proof (Qceiling_nonpos _ H). lia.
Qed.

Lemma np_arange_ok (stop step : Q) :
  ~ step == 0 ->
  exists l, np_arange stop step = Ok l /\ length l = arange_len stop step.
Proof.
  intro H. unfold np_arange. rewrite (Qeq_bool_false _ _ H).
  eexists. split; [reflexivity|]. now rewrite length_map, length_seq.
Qed.

Lemma np_arange_zero_step (stop step : Q) : step == 0 -> np_arange stop step = Raise ZeroDivisionError.
Proof.
  intro H. unfold np_arange. apply Qeq_bool_iff in H. now rewrite H.
Qed.

Lemma quotient_nonpos (a b : Q) : 0 <= a -> b < 0 -> a / b <= 0.
Proof.
  intros Ha Hb.
  assert (E : a / b == - (a / - b)) by (field; lra).
  assert (H : 0 <= a / - b) by (apply Qle_shift_div_l; lra).
  lra.
Qed.

Lemma quotient_nonpos' (a b : Q) : a <= 0 -> 0 < b -> a / b <= 0.
Proof.
  intros Ha Hb. apply Qle_shift_div_r; lra.
Qed.

Lemma length_zero_nil {A : Type} (l : list A) : length l = 0%nat -> l = [].
Proof.
  destruct l; [reflexivity | discriminate].
Qed.

Lemma removelast_length {A : Type} (l : list A) : length (removelast l) = (length l - 1)%nat.
Proof.
  induction l as [|a [|c l] IH]; [reflexivity | reflexivity |].
  change (removelast (a :: c :: l)) with (a :: removelast (c :: l)).
  cbn [length] in *. rewrite IH. lia.
Qed.

(** *** Runs of simulate_scenario *)

Definition more_p_sys (p_profile : option (Q -> Q)) (t_h : list Q) : list Q :=
  match p_profile with
  | None => np_full_like t_h 2.0
  | Some f => map f t_h
  end.

Lemma more_p_sys_length (p_profile : option (Q -> Q)) (t_h : list Q) :
  length (more_p_sys p_profile t_h) = length t_h.
Proof.
  destruct p_profile; simpl; [apply length_map | apply repeat_length].
Qed.

(** On a non-empty grid the call returns the four arrays, all of the
    grid's length. *)
Lemma more_run (duration_h dt_s : Q) (p_profile : option (Q -> Q)) (t_amb e_max : Q) :
  0 < dt_s -> 0 < duration_h ->
  exists t_s,
    np_arange (duration_h * 3600) dt_s = Ok t_s /\
    (0 < length t_s)%nat /\ length t_s = arange_len (duration_h * 3600) dt_s /\
    let t_h := map (fun t => t / 3600) t_s in
    let p_sys := more_p_sys p_profile t_h in
    let r := More.loop dt_s t_amb e_max (removelast p_sys) 1.0 t_amb in
    More.simulate_scenario duration_h dt_s p_profile t_amb e_max
    = Ok (More.mkTrajectory t_h p_sys (1.0 :: fst r) (t_amb :: snd r)).
Proof.
  intros Hdt Hdur.
  destruct (np_arange_ok (duration_h * 3600) dt_s) as (t_s & Ha & Hl); [lra|].
  assert (Hpos : (0 < arange_len (duration_h * 3600) dt_s)%nat)
    by (apply arange_len_pos; lra).
  exists t_s. split; [assumption|]. split; [lia|]. split; [assumption|].
  cbv zeta. unfold More.simulate_scenario. rewrite Ha. cbn [bind].
  destruct t_s as [|x t_s]; [simpl in Hl; lia|]. reflexivity.
Qed.

Lemma more_run_lengths (duration_h dt_s : Q) (p_profile : option (Q -> Q)) (t_amb e_max : Q) :
  0 < dt_s -> 0 < duration_h ->
  exists t,
    More.simulate_scenario duration_h dt_s p_profile t_amb e_max = Ok t /\
    (0 < length (More.t_h t))%nat /\
    length (More.t_h t) = arange_len (duration_h * 3600) dt_s /\
    length (More.p_sys t) = length (More.t_h t) /\
    length (More.soc t) = length (More.t_h t) /\
    length (More.temp t) = length (More.t_h t).
Proof.
  intros Hdt Hdur.
  destruct (more_run duration_h dt_s p_profile t_amb e_max Hdt Hdur)
    as (t_s & Ha & Hpos & Hl & Hrun).
  cbv zeta in Hrun. eexists. split; [exact Hrun|].
  cbn [More.t_h More.p_sys More.soc More.temp].
  destruct (more_loop_length dt_s t_amb e_max
              (removelast (more_p_sys p_profile (map (fun t => t / 3600) t_s))) 1.0 t_amb)
    as [L1 L2].
  cbn [length]. rewrite L1, L2, removelast_length, more_p_sys_length, length_map.
  repeat split; lia.
Qed.

Lemma more_run_empty_grid (duration_h dt_s : Q) (p_profile : option (Q -> Q)) (t_amb e_max : Q) :
  ~ dt_s == 0 -> duration_h * 3600 / dt_s <= 0 ->
  More.simulate_scenario duration_h dt_s p_profile t_amb e_max = Raise IndexError.
Proof.
  intros Hdt Hq.
  destruct (np_arange_ok (duration_h * 3600) dt_s Hdt) as (t_s & Ha & Hl).
  rewrite (arange_len_zero _ _ Hq) in Hl. apply length_zero_nil in Hl. subst t_s.
  unfold More.simulate_scenario. rewrite Ha. reflexivity.
Qed.

(** ** C4: after depletion *)







(** ** C8: what a bad configuration does *)

Lemma py_int_steps (x : Q) : 1 <= x -> exists n, py_int x = Z.of_nat (S n).
Proof.
  intro H. unfold py_int.
  assert (H0 : Qle_bool 0 x = true) by (apply Qle_bool_iff; lra).
  rewrite H0.
  assert (Hf : (1 <= Qfloor x)%Z).
  { change 1%Z with (Qfloor 1). now apply Qfloor_resp_le. }
  exists (Z.to_nat (Qfloor x - 1)). lia.
Qed.

Lemma quotient_pos_neg (a b : Q) : a < 0 -> b < 0 -> 0 < a / b.
Proof.
  intros Ha Hb.
  assert (E : a / b == - a / - b) by (field; lra).
  rewrite E. apply Qlt_shift_div_l; lra.
Qed.

(** Whenever the grid has a cell the call returns the four arrays, all of
    the grid's length: also for a negative step with a negative duration,
    where [np.arange] counts backwards from 0. *)
Lemma more_run_nonempty (duration_h dt_s : Q) (p_profile : option (Q -> Q)) (t_amb e_max : Q) :
  ~ dt_s == 0 -> 0 < duration_h * 3600 / dt_s ->
  exists t,
    More.simulate_scenario duration_h dt_s p_profile t_amb e_max = Ok t /\
    (0 < length (More.t_h t))%nat /\
    length (More.t_h t) = arange_len (duration_h * 3600) dt_s /\
    length (More.p_sys t) = length (More.t_h t) /\
    length (More.soc t) = length (More.t_h t) /\
    length (More.temp t) = length (More.t_h t).
Proof.
  intros Hdt Hq.
  destruct (np_arange_ok (duration_h * 3600) dt_s Hdt) as (t_s & Ha & Hl).
  assert (Hpos : (0 < arange_len (duration_h * 3600) dt_s)%nat).
  { unfold arange_len. pose proof (Qceiling_pos _ Hq). lia. }
  assert (Hrun : More.simulate_scenario duration_h dt_s p_profile t_amb e_max
                 = Ok (More.mkTrajectory
                         (map (fun t => t / 3600) t_s)
                         (more_p_sys p_profile (map (fun t => t / 3600) t_s))
                         (1.0 :: fst (More.loop dt_s t_amb e_max
                                        (removelast (more_p_sys p_profile
                                                       (map (fun t => t / 3600) t_s)))
                                        1.0 t_amb))
                         (t_amb :: snd (More.loop dt_s t_amb e_max
                                          (removelast (more_p_sys p_profile
                                                         (map (fun t => t / 3600) t_s)))
                                          1.0 t_amb)))).
  { unfold More.simulate_scenario. rewrite Ha. cbn [bind].
    destruct t_s as [|x t_s]; [simpl in Hl; lia|]. reflexivity. }
  eexists. split; [exact Hrun|].
  cbn [More.t_h More.p_sys More.soc More.temp].
  destruct (more_loop_length dt_s t_amb e_max
              (removelast (more_p_sys p_profile (map (fun t => t / 3600) t_s))) 1.0 t_amb)
    as [L1 L2].
  cbn [length]. rewrite L1, L2, removelast_length, more_p_sys_length, length_map.
  repeat split; lia.
Qed.

(** C8 (as the code has it).  Nothing validates a configuration.
    [simulate_scenario] fails before its loop exactly when the time grid
    cannot be built or is empty: a zero step makes [np.arange] raise, a
    negative step with a duration that is not negative, or a positive step
    with a duration that is not positive, gives an empty grid and the
    first store [soc[0] = 1.0] raises; in each case no trajectory is
    returned.  In the two cases that remain, a positive step with a
    positive duration and a negative step with a negative duration (the
    grid then counts backwards), it returns a trajectory whose four arrays
    have the grid's length, for every capacity [e_max], positive or not
    (at [e_max = 0] the script divides to infinity without raising; only
    the shape of the result is stated here).  [simulate_scenario_fixed]
    has no capacity or step argument; for a catalog scenario and a
    duration of at least one step it returns a trajectory whose three
    arrays have one length. *)
Theorem configuration_handling :
  (forall duration_h dt_s p_profile t_amb e_max,
     (dt_s == 0 ->
        More.simulate_scenario duration_h dt_s p_profile t_amb e_max
        = Raise ZeroDivisionError) /\
     (dt_s < 0 -> 0 <= duration_h ->
        More.simulate_scenario duration_h dt_s p_profile t_amb e_max = Raise IndexError) /\
     (0 < dt_s -> duration_h <= 0 ->
        More.simulate_scenario duration_h dt_s p_profile t_amb e_max = Raise IndexError) /\
     (0 < dt_s -> 0 < duration_h ->
        exists t,
          More.simulate_scenario duration_h dt_s p_profile t_amb e_max = Ok t /\
          (0 < length (More.t_h t))%nat /\
          length (More.t_h t) = arange_len (duration_h * 3600) dt_s /\
          length (More.p_sys t) = length (More.t_h t) /\
          length (More.soc t) = length (More.t_h t) /\
          length (More.temp t) = length (More.t_h t)) /\
     (dt_s < 0 -> duration_h < 0 ->
        exists t,
          More.simulate_scenario duration_h dt_s p_profile t_amb e_max = Ok t /\
          (0 < length (More.t_h t))%nat /\
          length (More.t_h t) = arange_len (duration_h * 3600) dt_s /\
          length (More.p_sys t) = length (More.t_h t) /\
          length (More.soc t) = length (More.t_h t) /\
          length (More.temp t) = length (More.t_h t))) /\
  (forall s_name s duration_h,
     Lives.lookup s_name Lives.scenarios_params = Ok s -> 1 <= duration_h * 60 ->
     exists t,
       Lives.simulate_scenario_fixed s_name duration_h = Ok t /\
       (0 < length (Lives.soc t))%nat /\
       length (Lives.soc t) = length (Lives.temp t) /\
       length (Lives.t_h t) = length (Lives.soc t)).
Proof.
  split.
  - intros duration_h dt_s p_profile t_amb e_max.
    split; [|split; [|split; [|split]]].
    + intro H. unfold More.simulate_scenario. now rewrite (np_arange_zero_step _ _ H).
    + intros Hdt Hdur. apply more_run_empty_grid; [lra|].
      apply quotient_nonpos; lra.
    + intros Hdt Hdur. apply more_run_empty_grid; [lra|].
      apply quotient_nonpos'; lra.
    + apply more_run_lengths.
    + intros Hdt Hdur. apply more_run_nonempty; [lra|].
      apply quotient_pos_neg; lra.
  - intros s_name s duration_h Hl Hd.
    destruct (py_int_steps _ Hd) as [n Hn].
    destruct (lives_run_monotone s_name s Hl (catalog_valid _ _ Hl) duration_h n Hn)
      as (t & Ht & L1 & L2 & _ & _ & _ & _).
    exists t. split; [assumption|]. split; [|split; assumption].
    revert Ht. unfold Lives.simulate_scenario_fixed. cbv zeta. rewrite Hn.
    destruct (steps_tests n) as (-> & -> & _ & _).
    destruct (Lives.loop _ _ _ _) as [r|e]; cbn [bind]; [|discriminate].
    intro H. injection H as <-. simpl. lia.
Qed.

(** C8 fails as stated: a negative capacity is not rejected;
    [simulate_scenario(e_max=-22.0)] returns all 360 samples. *)
Lemma negative_capacity_accepted :
  exists t,
    More.simulate_scenario 6 60 None 25.0 (-22.0) = Ok t /\
    length (More.soc t) = 360%nat /\ length (More.temp t) = 360%nat.
Proof.
  destruct (more_run_lengths 6 60 None 25.0 (-22.0)) as (t & Ht & _ & Hl & _ & Hs & HT);
    [lra | lra |].
  exists t. split; [assumption|].
  assert (E : arange_len (6 * 3600) 60 = 360%nat) by (vm_compute; reflexivity).
  rewrite Hs, HT, Hl, E. split; reflexivity.
Qed.

(** ** The integrator of generate_live_gifs.py *)

(** *** Draws *)

Lemma normal_array_spec (loc : Q) (scale : list Q) (st : Rng.state) :
  fst (Rng.normal_array loc scale st)
  = map (fun k => loc + nth k scale 0 * st k) (seq 0 (length scale)) /\
  forall i, snd (Rng.normal_array loc scale st) i = st (length scale + i)%nat.
Proof.
  revert st. induction scale as [|s scale IH]; intro st; [now split|].
  cbn [Rng.normal_array]. unfold Rng.mbind, Rng.normal, Rng.ret.
  specialize (IH (fun k => st (S k))).
  destruct (Rng.normal_array loc scale (fun k => st (S k))) as [xs st'].
  cbn [fst snd] in *. destruct IH as [IH1 IH2]. split.
  - cbn [length seq map nth]. f_equal. rewrite IH1, <- seq_shift, map_map. reflexivity.
  - intro i. rewrite IH2. reflexivity.
Qed.

Lemma normal_array_length (loc : Q) (scale : list Q) (st : Rng.state) :
  length (fst (Rng.normal_array loc scale st)) = length scale.
Proof.
  rewrite (proj1 (normal_array_spec loc scale st)). now rewrite length_map, length_seq.
Qed.

(** The array drawn depends on the next [len(scale)] draws only. *)
Lemma normal_array_ext (loc : Q) (scale : list Q) (st1 st2 : Rng.state) :
  (forall k, (k < length scale)%nat -> st1 k = st2 k) ->
  fst (Rng.normal_array loc scale st1) = fst (Rng.normal_array loc scale st2).
Proof.
  intro H. rewrite (proj1 (normal_array_spec loc scale st1)),
    (proj1 (normal_array_spec loc scale st2)).
  apply map_ext_in. intros k Hk. apply in_seq in Hk. rewrite H by lia. reflexivity.
Qed.

(** *** The profile *)

(** The value the four masked assignments leave in the cell of time [t]. *)
Definition profile_cell (t : Q) : Q :=
  if Qle_bool 3 t then 2.5
  else if Qle_bool 2 t && Qlt_bool t 3 then 4.5
  else if Qle_bool 1 t && Qlt_bool t 2 then 1.8
  else if Qlt_bool t 1 then 0.5
  else 0.

Lemma masked_set_map (mask : Q -> bool) (v : Q) (f : Q -> Q) (t : list Q) :
  masked_set mask v t (map f t) = map (fun tk => if mask tk then v else f tk) t.
Proof.
  induction t as [|tk t IH]; [reflexivity|]. simpl. now rewrite IH.
Qed.

Lemma profile_map (t_h : list Q) : Live.profile t_h = map profile_cell t_h.
Proof.
  unfold Live.profile, np_zeros. cbv zeta.
  replace (repeat 0 (length t_h)) with (map (fun _ : Q => 0) t_h)
    by (induction t_h as [|a l IH]; [reflexivity | simpl; now rewrite IH]).
  now rewrite !masked_set_map.
Qed.

Lemma profile_cell_bounds (t : Q) : 0.5 <= profile_cell t <= 4.5.
Proof.
  unfold profile_cell.
  destruct (Qle_bool 3 t) eqn:E3; [lra|].
  destruct (Qle_bool 2 t) eqn:E2.
  - assert (Qlt_bool t 3 = true) as -> by (apply Qlt_bool_true; now apply Qle_bool_false).
    cbn [andb]. lra.
  - cbn [andb]. destruct (Qle_bool 1 t) eqn:E1.
    + assert (Qlt_bool t 2 = true) as -> by (apply Qlt_bool_true; now apply Qle_bool_false).
      cbn [andb]. lra.
    + cbn [andb].
      assert (Qlt_bool t 1 = true) as -> by (apply Qlt_bool_true; now apply Qle_bool_false).
      lra.
Qed.

Lemma profile_length (t_h : list Q) : length (Live.profile t_h) = length t_h.
Proof.
  now rewrite profile_map, length_map.
Qed.

Lemma add_cells_length (a b : list Q) :
  length a = length b -> length (Live.add_cells a b) = length a.
Proof.
  revert b. induction a as [|x a IH]; intros [|y b] H; simpl in *; try discriminate; auto.
Qed.

Lemma scale_not_negative (noise_std : Q) (t_h : list Q) :
  0 <= noise_std ->
  existsb (fun s => Qlt_bool s 0) (map (fun p => noise_std * p) (Live.profile t_h)) = false.
Proof.
  intro H. rewrite profile_map, map_map.
  induction t_h as [|t l IH]; [reflexivity|]. cbn [map existsb]. rewrite IH, orb_false_r.
  apply Qlt_bool_false. pose proof (profile_cell_bounds t). nra.
Qed.

(** *** Runs of get_live_data *)

(** The power array a call computes from the draws of [st]. *)
Definition live_p_sys (noise_std : Q) (t_h : list Q) (st : Rng.state) : list Q :=
  let p0 := Live.profile t_h in
  let noise := fst (Rng.normal_array 0 (map (fun p => noise_std * p) p0) st) in
  map (fun p => np_maximum p 0.1) (Live.add_cells p0 noise).

Lemma live_p_sys_length (noise_std : Q) (t_h : list Q) (st : Rng.state) :
  length (live_p_sys noise_std t_h st) = length t_h.
Proof.
  unfold live_p_sys. cbv zeta. rewrite length_map, add_cells_length.
  - apply profile_length.
  - now rewrite normal_array_length, length_map.
Qed.

Lemma live_p_sys_floor (noise_std : Q) (t_h : list Q) (st : Rng.state) :
  Forall (fun p => 0.1 <= p) (live_p_sys noise_std t_h st).
Proof.
  unfold live_p_sys. cbv zeta. apply Forall_forall. intros p Hp.
  apply in_map_iff in Hp. destruct Hp as (q & <- & _). apply np_maximum_lower.
Qed.

(** On a non-empty grid and for a noise level that is not negative the
    call returns the four arrays. *)
Lemma live_run (noise_std duration_h dt_s : Q) (st : Rng.state) :
  0 <= noise_std -> 0 < dt_s -> 0 < duration_h ->
  exists t_s,
    np_arange (duration_h * 3600) dt_s = Ok t_s /\
    (0 < length t_s)%nat /\ length t_s = arange_len (duration_h * 3600) dt_s /\
    let t_h := map (fun t => t / 3600) t_s in
    let p_sys := live_p_sys noise_std t_h st in
    fst (Live.get_live_data_noise noise_std duration_h dt_s st)
    = Ok (Live.mkTrajectory t_h p_sys
            (1.0 :: Live.soc_loop dt_s (removelast p_sys) 1.0)
            (Live.T_AMB :: Live.temp_loop dt_s (removelast p_sys) Live.T_AMB)).
Proof.
  intros Hn Hdt Hdur.
  destruct (np_arange_ok (duration_h * 3600) dt_s) as (t_s & Ha & Hl); [lra|].
  assert (Hpos : (0 < arange_len (duration_h * 3600) dt_s)%nat)
    by (apply arange_len_pos; lra).
  exists t_s. split; [assumption|]. split; [lia|]. split; [assumption|].
  cbv zeta. unfold Live.get_live_data_noise. rewrite Ha.
  rewrite (scale_not_negative noise_std _ Hn).
  unfold Rng.mbind, live_p_sys. cbv zeta.
  destruct (Rng.normal_array 0 _ st) as [noise st'].
  destruct t_s as [|x t_s]; [simpl in Hl; lia|]. reflexivity.
Qed.

Lemma Forall_removelast {A : Type} (P : A -> Prop) (l : list A) :
  Forall P l -> Forall P (removelast l).
Proof.
  induction 1 as [|a l Ha Hl IH]; [constructor|].
  destruct l as [|c l]; [constructor|].
  change (removelast (a :: c :: l)) with (a :: removelast (c :: l)).
  constructor; assumption.
Qed.

Lemma live_soc_loop_length (dt_s : Q) (p : list Q) (soc_i : Q) :
  length (Live.soc_loop dt_s p soc_i) = length p.
Proof.
  revert soc_i. induction p as [|p_i p IH]; intro soc_i; simpl; [reflexivity | now rewrite IH].
Qed.

Lemma live_temp_loop_length (dt_s : Q) (p : list Q) (temp_i : Q) :
  length (Live.temp_loop dt_s p temp_i) = length p.
Proof.
  revert temp_i. induction p as [|p_i p IH]; intro temp_i; simpl; [reflexivity | now rewrite IH].
Qed.

(** Each step takes at least [0.35 W] worth of charge: cell [k] of the
    loop's output lies at least [k + 1] such drops below the start. *)
Lemma live_soc_loop_upper (dt_s : Q) (p : list Q) :
  0 <= dt_s -> Forall (fun p_i => 0.1 <= p_i) p ->
  forall soc_i k x, nth_error (Live.soc_loop dt_s p soc_i) k = Some x ->
    x <= soc_i - of_nat (S k) * (0.35 / Live.E_MAX_WH * (dt_s / 3600)).
Proof.
  intros Hdt Hp. induction Hp as [|p_i p Hpi Hp IH]; intros soc_i k x Hx.
  - destruct k; discriminate.
  - cbn [Live.soc_loop] in Hx. cbv zeta in Hx.
    assert (Hdrop : soc_i - (p_i + Live.P_IDLE) / Live.E_MAX_WH * (dt_s / 3600)
                    <= soc_i - 0.35 / Live.E_MAX_WH * (dt_s / 3600)).
    { unfold Live.P_IDLE, Live.E_MAX_WH. qdiv. nra. }
    destruct k as [|k]; cbn [nth_error] in Hx.
    + injection Hx as <-. change (of_nat 1) with 1. lra.
    + apply IH in Hx. rewrite (of_nat_S (S k)). lra.
Qed.

(** The charge falls strictly from cell to cell. *)
Lemma live_soc_loop_decreasing (dt_s : Q) (p : list Q) (soc_i : Q) :
  0 < dt_s -> Forall (fun p_i => 0.1 <= p_i) p ->
  strictly_decreasing (soc_i :: Live.soc_loop dt_s p soc_i).
Proof.
  intros Hdt Hp. revert soc_i. induction Hp as [|p_i p Hpi Hp IH]; intro soc_i.
  - apply adjacent_one.
  - cbn [Live.soc_loop]. cbv zeta. apply adjacent_cons; [|apply IH].
    unfold Live.P_IDLE, Live.E_MAX_WH. qdiv. nra.
Qed.

(** ** C1: the charge of get_live_data is not clamped *)

(** With at least [n + 1] samples, sample [n >= 1] of the charge is at
    most [1 - n * 0.35 / E_MAX_WH * dt_s / 3600], whatever is drawn. *)
Lemma live_soc_cell_upper (duration_h dt_s : Q) (st : Rng.state) (n : nat) :
  0 < dt_s -> 0 < duration_h ->
  (S n < arange_len (duration_h * 3600) dt_s)%nat ->
  exists t x,
    fst (Live.get_live_data duration_h dt_s st) = Ok t /\
    nth_error (Live.soc t) (S n) = Some x /\
    x <= 1.0 - of_nat (S n) * (0.35 / Live.E_MAX_WH * (dt_s / 3600)).
Proof.
  intros Hdt Hdur Hn. unfold Live.get_live_data.
  destruct (live_run 0.1 duration_h dt_s st) as (t_s & _ & _ & Hl & Hrun);
    [lra | assumption | assumption |].
  cbv zeta in Hrun.
  set (p_sys := live_p_sys 0.1 (map (fun t => t / 3600) t_s) st) in *.
  assert (Hlen : length (Live.soc_loop dt_s (removelast p_sys) 1.0)
                 = (arange_len (duration_h * 3600) dt_s - 1)%nat).
  { rewrite live_soc_loop_length, removelast_length. unfold p_sys.
    now rewrite live_p_sys_length, length_map, Hl. }
  destruct (nth_error (Live.soc_loop dt_s (removelast p_sys) 1.0) n) as [x|] eqn:E.
  - eexists. exists x. split; [exact Hrun|]. cbn [Live.soc nth_error].
    split; [exact E|].
    apply (live_soc_loop_upper dt_s (removelast p_sys)); [lra | | exact E].
    apply Forall_removelast. apply live_p_sys_floor.
  - apply nth_error_None in E. lia.
Qed.

(** C1 at the failing input.  For [get_live_data(duration_h=70)] (60 s
    steps, 4200 samples) the last sample of the charge is negative,
    whatever noise is drawn: the loop subtracts at least [0.35 W] worth of
    charge per step and never clamps. *)
Theorem live_soc_leaves_unit_interval (st : Rng.state) :
  exists t x,
    fst (Live.get_live_data 70 60 st) = Ok t /\
    nth_error (Live.soc t) 4199 = Some x /\ x < 0.
Proof.
  assert (E : arange_len (70 * 3600) 60 = 4200%nat) by (vm_compute; reflexivity).
  destruct (live_soc_cell_upper 70 60 st 4198) as (t & x & Ht & Hx & Hb);
    [lra | lra | rewrite E; apply Nat.lt_succ_diag_r |].
  exists t, x. split; [assumption|]. split; [assumption|].
  eapply Qle_lt_trans; [exact Hb|]. vm_compute. reflexivity.
Qed.

(** ** C5: what a call depends on *)

Lemma np_arange_length (stop step : Q) (l : list Q) :
  np_arange stop step = Ok l -> length l = arange_len stop step.
Proof.
  unfold np_arange. destruct (Qeq_bool step 0); [discriminate|].
  intro H. injection H as <-. now rewrite length_map, length_seq.
Qed.

(** C5 (as the code has it).  [get_live_data] draws its noise itself,
    one draw per cell of the time grid.  Two calls with the same arguments
    return the same result, cell for cell and bit for bit, whenever the
    generator hands both the same [len(t_h)] draws.
    ([simulate_scenario_fixed] and [simulate_scenario] contain no call of
    [np.random]; they are functions of their arguments alone, which is
    why they take no generator here.) *)
Theorem live_result_fixed_by_draws (duration_h dt_s : Q) (st1 st2 : Rng.state) :
  (forall k, (k < arange_len (duration_h * 3600) dt_s)%nat -> st1 k = st2 k) ->
  fst (Live.get_live_data duration_h dt_s st1) = fst (Live.get_live_data duration_h dt_s st2).
Proof.
  intro H. unfold Live.get_live_data, Live.get_live_data_noise.
  destruct (np_arange (duration_h * 3600) dt_s) as [t_s|e] eqn:Ha; [|reflexivity].
  apply np_arange_length in Ha.
  destruct (existsb _ _); [reflexivity|].
  unfold Rng.mbind.
  pose proof (normal_array_ext 0
    (map (fun p => 0.1 * p) (Live.profile (map (fun t => t / 3600) t_s))) st1 st2) as Hext.
  rewrite length_map, profile_length, length_map, Ha in Hext. specialize (Hext H).
  destruct (Rng.normal_array 0 _ st1) as [noise1 st1'].
  destruct (Rng.normal_array 0 _ st2) as [noise2 st2'].
  cbn [fst] in Hext. subst noise2.
  destruct (map (fun t => t / 3600) t_s); reflexivity.
Qed.

Lemma live_result_fixed_by_draws_witness :
  fst (Live.get_live_data 4 60 (Rng.const 0))
  = fst (Live.get_live_data 4 60 (fun k => if (k <? 240)%nat then 0 else 1)).
Proof.
  apply (live_result_fixed_by_draws 4 60 (Rng.const 0) (fun k => if (k <? 240)%nat then 0 else 1)).
  assert (E : arange_len (4 * 3600) 60 = 240%nat) by (vm_compute; reflexivity).
  rewrite E. intros k Hk. apply Nat.ltb_lt in Hk. rewrite Hk. reflexivity.
Defined.

(** A call that returns has advanced the generator by one draw per cell. *)
Lemma live_draw_count (noise_std duration_h dt_s : Q) (st : Rng.state) (i : nat) :
  0 <= noise_std -> 0 < dt_s -> 0 < duration_h ->
  snd (Live.get_live_data_noise noise_std duration_h dt_s st) i
  = st (arange_len (duration_h * 3600) dt_s + i)%nat.
Proof.
  intros Hn Hdt Hdur.
  destruct (np_arange_ok (duration_h * 3600) dt_s) as (t_s & Ha & Hl); [lra|].
  unfold Live.get_live_data_noise. rewrite Ha, (scale_not_negative noise_std _ Hn).
  unfold Rng.mbind.
  pose proof (proj2 (normal_array_spec 0
    (map (fun p => noise_std * p) (Live.profile (map (fun t => t / 3600) t_s))) st) i) as Hs.
  rewrite length_map, profile_length, length_map, Hl in Hs.
  destruct (Rng.normal_array 0 _ st) as [noise st']. cbn [snd] in Hs.
  destruct (map (fun t => t / 3600) t_s); exact Hs.
Qed.

(** C5 fails as stated: two calls [get_live_data(4, 60)] that draw
    different noise differ already in the charge at sample 1
    ([0.999431...] after draws of 0, [0.999393...] after draws of 1). *)
Lemma live_differs_between_calls :
  exists t1 t2,
    fst (Live.get_live_data 4 60 (Rng.const 0)) = Ok t1 /\
    fst (Live.get_live_data 4 60 (Rng.const 1)) = Ok t2 /\
    ~ same_cells (Live.soc t1) (Live.soc t2).
Proof.
  destruct (live_run 0.1 4 60 (Rng.const 0)) as (s1 & _ & _ & _ & H1); [lra | lra | lra |].
  destruct (live_run 0.1 4 60 (Rng.const 1)) as (s2 & _ & _ & _ & H2); [lra | lra | lra |].
  cbv zeta in H1, H2. fold (Live.get_live_data 4 60) in H1, H2.
  assert (E1 : match fst (Live.get_live_data 4 60 (Rng.const 0)) with
               | Ok t => nth_error (Live.soc t) 1
               | Raise _ => None
               end = Some (791550000000 # 792000000000)) by (lazy; reflexivity).
  assert (E2 : match fst (Live.get_live_data 4 60 (Rng.const 1)) with
               | Ok t => nth_error (Live.soc t) 1
               | Raise _ => None
               end = Some (791520000000 # 792000000000)) by (lazy; reflexivity).
  rewrite H1 in E1. rewrite H2 in E2.
  eexists. eexists. split; [exact H1|]. split; [exact H2|].
  intro Hs. pose proof (same_cells_nth _ _ 1 _ _ Hs E1 E2) as Hq.
  revert Hq. vm_compute. discriminate.
Qed.

(** ** C7: the ensemble when the draws are 0 *)

Lemma same_cells_sym (l1 l2 : list Q) : same_cells l1 l2 -> same_cells l2 l1.
Proof.
  induction 1; constructor; [now symmetry | assumption].
Qed.

Lemma same_cells_trans (l1 l2 l3 : list Q) :
  same_cells l1 l2 -> same_cells l2 l3 -> same_cells l1 l3.
Proof.
  intro H. revert l3. induction H as [|x y l1 l2 Hxy _ IH]; intros l3 H3.
  - inversion H3. constructor.
  - inversion H3 as [|y' z l2' l3' Hyz Ht]; subst. constructor.
    + now rewrite Hxy.
    + now apply IH.
Qed.

Lemma same_cells_length (l1 l2 : list Q) : same_cells l1 l2 -> length l1 = length l2.
Proof.
  induction 1; simpl; congruence.
Qed.

Lemma same_cells_removelast (l1 l2 : list Q) :
  same_cells l1 l2 -> same_cells (removelast l1) (removelast l2).
Proof.
  induction 1 as [|x y l1 l2 Hxy Hl IH]; [constructor|].
  destruct Hl as [|x' y' l1 l2 Hxy' Hl].
  - constructor.
  - change (same_cells (x :: removelast (x' :: l1)) (y :: removelast (y' :: l2))).
    constructor; assumption.
Qed.

Lemma same_cells_nth_default (l1 l2 : list Q) (k : nat) :
  same_cells l1 l2 -> nth k l1 0 == nth k l2 0.
Proof.
  intro H. revert k. induction H as [|x y l1 l2 Hxy _ IH]; intros [|k]; simpl;
    try reflexivity; [assumption | apply IH].
Qed.

(** The two loops of [get_live_data] compute equal cells from equal
    cells. *)
Lemma live_soc_loop_same (dt_s : Q) (p p' : list Q) (soc_i soc_i' : Q) :
  same_cells p p' -> soc_i == soc_i' ->
  same_cells (Live.soc_loop dt_s p soc_i) (Live.soc_loop dt_s p' soc_i').
Proof.
  intro H. revert soc_i soc_i'. induction H as [|x y p p' Hxy _ IH]; intros soc_i soc_i' Hs.
  - constructor.
  - cbn [Live.soc_loop]. cbv zeta.
    assert (E : soc_i - (x + Live.P_IDLE) / Live.E_MAX_WH * (dt_s / 3600)
                == soc_i' - (y + Live.P_IDLE) / Live.E_MAX_WH * (dt_s / 3600))
      by now rewrite Hxy, Hs.
    constructor; [exact E | now apply IH].
Qed.

(** When the draws are 0 the perturbed power equals the profile, cell
    for cell: the noise of a cell is [0 + (0.1 * p) * z] for its draw
    [z]. *)
Lemma zero_draw_cells (p0 : list Q) (st : Rng.state) :
  Forall (fun p => 0.1 <= p) p0 ->
  (forall k, (k < length p0)%nat -> st k == 0) ->
  same_cells
    (map (fun p => np_maximum p 0.1)
         (Live.add_cells p0 (fst (Rng.normal_array 0 (map (fun p => 0.1 * p) p0) st))))
    p0.
Proof.
  intro H. revert st. induction H as [|p p0 Hp _ IH]; intros st Hst; [constructor|].
  cbn [map Rng.normal_array]. unfold Rng.mbind, Rng.normal, Rng.ret.
  specialize (IH (fun k => st (S k))).
  destruct (Rng.normal_array 0 (map (fun p => 0.1 * p) p0) (fun k => st (S k))) as [xs st'].
  cbn [fst Live.add_cells map] in *.
  constructor; [|apply IH; intros k Hk; apply Hst; simpl; lia].
  assert (E : p + (0 + 0.1 * p * st 0%nat) == p).
  { rewrite (Hst 0%nat) by (simpl; lia). ring. }
  rewrite np_maximum_left; [exact E | rewrite E; exact Hp].
Qed.

Lemma profile_floor (t_h : list Q) : Forall (fun p => 0.1 <= p) (Live.profile t_h).
Proof.
  rewrite profile_map. apply Forall_forall. intros p Hp.
  apply in_map_iff in Hp. destruct Hp as (t & <- & _).
  pose proof (profile_cell_bounds t). lra.
Qed.

(** The charge [get_live_data] computes from the unperturbed profile. *)
Definition live_nominal_soc (duration_h dt_s : Q) : list Q :=
  match np_arange (duration_h * 3600) dt_s with
  | Ok t_s =>
      1.0 :: Live.soc_loop dt_s (removelast (Live.profile (map (fun t => t / 3600) t_s))) 1.0
  | Raise _ => []
  end.

Lemma live_zero_draw_run (duration_h dt_s : Q) (st : Rng.state) :
  0 < dt_s -> 0 < duration_h ->
  (forall k, (k < arange_len (duration_h * 3600) dt_s)%nat -> st k == 0) ->
  exists t,
    fst (Live.get_live_data duration_h dt_s st) = Ok t /\
    same_cells (Live.soc t) (live_nominal_soc duration_h dt_s).
Proof.
  intros Hdt Hdur Hst.
  destruct (live_run 0.1 duration_h dt_s st) as (t_s & Ha & _ & Hl & Hrun);
    [lra | assumption | assumption |].
  cbv zeta in Hrun. eexists. split; [exact Hrun|].
  unfold live_nominal_soc. rewrite Ha. cbn [Live.soc].
  constructor; [reflexivity|].
  apply live_soc_loop_same; [|reflexivity].
  apply same_cells_removelast. unfold live_p_sys. cbv zeta.
  apply zero_draw_cells; [apply profile_floor|].
  intros k Hk. apply Hst. now rewrite profile_length, length_map, Hl in Hk.
Qed.

Lemma runs_zero_draws (duration_h dt_s : Q) :
  0 < dt_s -> 0 < duration_h ->
  forall n_runs st,
  (forall k, (k < n_runs * arange_len (duration_h * 3600) dt_s)%nat -> st k == 0) ->
  exists rs,
    fst (Live.runs 0.1 duration_h dt_s n_runs st) = Ok rs /\ length rs = n_runs /\
    Forall (fun r => same_cells r (live_nominal_soc duration_h dt_s)) rs.
Proof.
  intros Hdt Hdur. set (len := arange_len (duration_h * 3600) dt_s).
  induction n_runs as [|n IH]; intros st Hst.
  - exists []. simpl. repeat split. constructor.
  - cbn [Live.runs]. unfold Rng.mbind.
    destruct (live_zero_draw_run duration_h dt_s st Hdt Hdur) as (t & Ht & Hs).
    { intros k Hk. apply Hst. fold len in Hk. simpl. lia. }
    pose proof (live_draw_count 0.1 duration_h dt_s st) as Hcount.
    unfold Live.get_live_data in Ht.
    destruct (Live.get_live_data_noise 0.1 duration_h dt_s st) as [r st'].
    cbn [fst snd] in Ht, Hcount. subst r.
    destruct (IH st') as (rs & Hrs & Hlen & Hall).
    { intros k Hk. rewrite Hcount by lra. apply Hst. fold len. simpl. lia. }
    destruct (Live.runs 0.1 duration_h dt_s n st') as [rest st''].
    cbn [fst] in Hrs. subst rest. unfold Rng.ret. cbn [fst bind].
    exists (Live.soc t :: rs). split; [reflexivity|]. split; [simpl; now rewrite Hlen|].
    constructor; assumption.
Qed.

(** *** The step-wise mean of equal runs *)

Lemma fold_sum_const (l : list Q) (c a : Q) :
  Forall (fun x => x == c) l -> fold_left Qplus l a == a + of_nat (length l) * c.
Proof.
  intro H. revert a. induction H as [|x l Hx _ IH]; intro a.
  - simpl. change (of_nat 0) with 0. ring.
  - cbn [fold_left length]. rewrite IH, of_nat_S, Hx. ring.
Qed.

Lemma firstn_as_map (r : list Q) (frame : nat) :
  firstn frame r = map (fun k => nth k r 0) (seq 0 (Nat.min frame (length r))).
Proof.
  revert r. induction frame as [|frame IH]; intros [|a r]; try reflexivity.
  cbn [firstn length Nat.min seq map nth]. f_equal.
  rewrite IH, <- seq_shift, map_map. reflexivity.
Qed.

Lemma same_cells_map_seq (f g : nat -> Q) (m : nat) :
  (forall k, (k < m)%nat -> f k == g k) ->
  same_cells (map f (seq 0 m)) (map g (seq 0 m)).
Proof.
  intro H. assert (G : forall k, In k (seq 0 m) -> f k == g k)
    by (intros k Hk; apply in_seq in Hk; apply H; lia).
  clear H. induction (seq 0 m) as [|k l IH]; [constructor|].
  constructor; [apply G; now left | apply IH; intros j Hj; apply G; now right].
Qed.

Lemma mean_of_equal_runs (rs : list (list Q)) (ref : list Q) (frame : nat) (r : list Q) :
  Forall (fun r' => same_cells r' ref) rs -> In r rs ->
  same_cells (Live.mean_y rs frame) (Live.line_y r frame).
Proof.
  intros Hall Hr.
  assert (Hlen : length (hd [] rs) = length r).
  { rewrite Forall_forall in Hall.
    destruct rs as [|r0 rs]; [contradiction|]. cbn [hd].
    rewrite (same_cells_length _ _ (Hall r0 (or_introl eq_refl))).
    now rewrite (same_cells_length _ _ (Hall r Hr)). }
  assert (Hn : 0 < of_nat (length rs)).
  { apply of_nat_pos. destruct rs; [contradiction | simpl; lia]. }
  unfold Live.mean_y, Live.line_y, Live.np_mean_axis0.
  rewrite firstn_as_map, !map_map, length_map, Hlen.
  apply same_cells_map_seq. intros k Hk.
  rewrite (fold_sum_const _ (nth k r 0)).
  - rewrite !length_map. field. lra.
  - apply Forall_forall. intros x Hx. apply in_map_iff in Hx.
    destruct Hx as (r0 & <- & Hr0). apply in_map_iff in Hr0.
    destruct Hr0 as (r' & <- & Hr'). rewrite nth_firstn.
    assert (Hkf : (k <? frame)%nat = true) by (apply Nat.ltb_lt; lia).
    rewrite Hkf. rewrite Forall_forall in Hall.
    rewrite (same_cells_nth_default _ _ k (Hall r' Hr')).
    now rewrite (same_cells_nth_default _ _ k (Hall r Hr)).
Qed.

(** *** The same run by simulate_scenario *)

Lemma arange_last_cell (stop step : Q) :
  0 < step -> 0 < stop -> of_nat (arange_len stop step - 1) * step < stop.
Proof.
  intros Hs Hp. unfold arange_len.
  assert (Hq : 0 < stop / step) by (apply Qlt_shift_div_l; lra).
  pose proof (Qceiling_pos _ Hq) as Hc. pose proof (Qceiling_lt (stop / step)) as Hlt.
  assert (E : of_nat (Z.to_nat (Qceiling (stop / step)) - 1)
              = inject_Z (Qceiling (stop / step) - 1)).
  { unfold of_nat. f_equal. lia. }
  rewrite E. set (c := inject_Z (Qceiling (stop / step) - 1)) in *.
  assert (F : stop == stop / step * step) by (field; lra).
  assert (G : c * step < stop / step * step) by nra.
  now rewrite F.
Qed.

(** While the charge lasts, the loop of [generate_more_gifs.py] writes
    what the two loops of [generate_live_gifs.py] write. *)
Lemma more_loop_is_live_loop (dt_s : Q) (p : list Q) (soc_i temp_i : Q) :
  0 <= dt_s -> Forall (fun p_i => 0.1 <= p_i <= 4.5) p ->
  of_nat (length p) * (4.75 / 22.0 * (dt_s / 3600)) < soc_i ->
  More.loop dt_s Live.T_AMB Live.E_MAX_WH p soc_i temp_i
  = (Live.soc_loop dt_s p soc_i, Live.temp_loop dt_s p temp_i).
Proof.
  intros Hdt Hp. revert soc_i temp_i.
  induction Hp as [|p_i p Hpi _ IH]; intros soc_i temp_i Hs; [reflexivity|].
  cbn [More.loop Live.soc_loop Live.temp_loop]. cbv zeta.
  cbn [length] in Hs. rewrite of_nat_S in Hs.
  pose proof (of_nat_nonneg (length p)) as Hl.
  change More.P_IDLE with Live.P_IDLE. change More.R_TH with Live.R_TH.
  change More.C_TH with Live.C_TH.
  set (soc1 := soc_i - (p_i + Live.P_IDLE) / Live.E_MAX_WH * (dt_s / 3600)).
  assert (H1 : of_nat (length p) * (4.75 / 22.0 * (dt_s / 3600)) < soc1).
  { unfold soc1, Live.P_IDLE, Live.E_MAX_WH. qdiv. nra. }
  assert (H0 : 0 < soc1).
  { eapply Qle_lt_trans; [|exact H1]. qdiv. nra. }
  rewrite (py_max_0_pos _ H0). apply Qle_bool_false in H0. rewrite H0.
  rewrite (IH soc1 _ H1). reflexivity.
Qed.

Lemma profile_range (t_h : list Q) :
  Forall (fun p_i => 0.1 <= p_i <= 4.5) (map profile_cell t_h).
Proof.
  apply Forall_forall. intros p Hp. apply in_map_iff in Hp. destruct Hp as (t & <- & _).
  pose proof (profile_cell_bounds t). lra.
Qed.

(** For a duration of at most four hours the battery outlasts the
    profile, and [simulate_scenario] on the same profile returns the
    nominal charge of [get_live_data]. *)
Lemma more_run_is_live_nominal (duration_h dt_s : Q) :
  0 < dt_s -> 0 < duration_h -> duration_h <= 4 ->
  exists t,
    More.simulate_scenario duration_h dt_s (Some profile_cell) Live.T_AMB Live.E_MAX_WH = Ok t /\
    More.soc t = live_nominal_soc duration_h dt_s.
Proof.
  intros Hdt Hdur H4.
  destruct (more_run duration_h dt_s (Some profile_cell) Live.T_AMB Live.E_MAX_WH Hdt Hdur)
    as (t_s & Ha & _ & Hl & Hrun).
  cbv zeta in Hrun. eexists. split; [exact Hrun|].
  cbn [More.soc more_p_sys]. unfold live_nominal_soc. rewrite Ha, profile_map.
  f_equal. rewrite more_loop_is_live_loop; [reflexivity | lra | | ].
  - apply Forall_removelast, profile_range.
  - rewrite removelast_length, !length_map, Hl.
    pose proof (arange_last_cell (duration_h * 3600) dt_s) as Hlast.
    assert (Hn := of_nat_nonneg (arange_len (duration_h * 3600) dt_s - 1)).
    set (n := of_nat (arange_len (duration_h * 3600) dt_s - 1)) in *.
    assert (Hb : n * dt_s < duration_h * 3600) by (apply Hlast; lra).
    qdiv. nra.
Qed.

(** *** The Monte-Carlo fan when the draws are 0 *)

Lemma mc_line_unit (x : list Q) (noise : Q) :
  noise == 1 -> same_cells (Lives.mc_line x noise) (Lives.mc_main_line x).
Proof.
  intro H. unfold Lives.mc_line, Lives.mc_main_line.
  induction x as [|xk x IHx]; [constructor|].
  constructor; [rewrite H; ring | exact IHx].
Qed.

Lemma mc_zero_draws (x : list Q) (n_runs : nat) (st : Rng.state) :
  (forall k, (k < n_runs)%nat -> st k == 0) ->
  length (fst (Lives.mc_noises 0.15 n_runs st)) = n_runs /\
  Forall (fun noise => same_cells (Lives.mc_line x noise) (Lives.mc_main_line x))
         (fst (Lives.mc_noises 0.15 n_runs st)).
Proof.
  revert st. induction n_runs as [|n IH]; intros st Hst; [split; [reflexivity | constructor]|].
  cbn [Lives.mc_noises]. unfold Rng.mbind, Rng.normal, Rng.ret.
  specialize (IH (fun k => st (S k))).
  destruct (Lives.mc_noises 0.15 n (fun k => st (S k))) as [rest st'].
  cbn [fst] in *. destruct IH as [IH1 IH2]; [intros k Hk; apply Hst; lia|].
  split; [simpl; now rewrite IH1|].
  constructor; [|exact IH2].
  apply mc_line_unit. rewrite (Hst 0%nat) by lia. ring.
Qed.

(** C7 (as the code has it).  The scripts have no noise level to set:
    [get_live_data] perturbs the profile by [normal(0, 0.1 * p_sys)] and
    [make_monte_carlo_gif] draws [normal(1.0, 0.15)].  The noise vanishes
    when the draws are 0.  For any number of runs, a positive step and a
    positive duration, if every draw the generator hands to the [n_runs]
    calls of [get_live_data] is 0, then in exact arithmetic
    [make_stochastic_gif]'s runs are [n_runs] charge arrays with equal
    cells, each equal to the charge computed from the unperturbed
    profile, and the step-wise mean line equals every run's line at every
    frame.  For a duration of at most four hours (the script's) that
    charge is the one [simulate_scenario] returns for the same profile,
    ambient temperature and capacity.  In [make_monte_carlo_gif] every
    line of the fan whose draw is 0 equals the main line. *)
Theorem ensemble_with_zero_draws (n_runs : nat) (duration_h dt_s : Q) (st : Rng.state) :
  0 < dt_s -> 0 < duration_h ->
  (forall k, (k < n_runs * arange_len (duration_h * 3600) dt_s)%nat -> st k == 0) ->
  exists rs,
    fst (Live.runs 0.1 duration_h dt_s n_runs st) = Ok rs /\ length rs = n_runs /\
    (forall r, In r rs -> same_cells r (live_nominal_soc duration_h dt_s)) /\
    (forall r1 r2, In r1 rs -> In r2 rs -> same_cells r1 r2) /\
    (forall r frame, In r rs -> same_cells (Live.mean_y rs frame) (Live.line_y r frame)) /\
    (duration_h <= 4 ->
       exists t,
         More.simulate_scenario duration_h dt_s (Some profile_cell) Live.T_AMB Live.E_MAX_WH
         = Ok t /\
         More.soc t = live_nominal_soc duration_h dt_s) /\
    (forall st' x,
       (forall k, (k < n_runs)%nat -> st' k == 0) ->
       length (fst (Lives.mc_noises 0.15 n_runs st')) = n_runs /\
       Forall (fun noise => same_cells (Lives.mc_line x noise) (Lives.mc_main_line x))
              (fst (Lives.mc_noises 0.15 n_runs st'))).
Proof.
  intros Hdt Hdur Hst.
  destruct (runs_zero_draws duration_h dt_s Hdt Hdur n_runs st Hst) as (rs & Hrs & Hlen & Hall).
  exists rs. split; [assumption|]. split; [assumption|].
  pose proof Hall as Hall'. rewrite Forall_forall in Hall'.
  split; [exact Hall'|].
  split.
  - intros r1 r2 H1 H2. apply same_cells_trans with (live_nominal_soc duration_h dt_s).
    + now apply Hall'.
    + apply same_cells_sym. now apply Hall'.
  - split.
    + intros r frame Hr. now apply mean_of_equal_runs with (live_nominal_soc duration_h dt_s).
    + split.
      * intro H4. now apply more_run_is_live_nominal.
      * intros st' x Hst'. now apply mc_zero_draws.
Qed.

Lemma ensemble_with_zero_draws_witness :
  exists rs,
    fst (Live.runs 0.1 4 60 20 (Rng.const 0)) = Ok rs /\ length rs = 20%nat /\
    (forall r, In r rs -> same_cells r (live_nominal_soc 4 60)) /\
    (forall r1 r2, In r1 rs -> In r2 rs -> same_cells r1 r2) /\
    (forall r frame, In r rs -> same_cells (Live.mean_y rs frame) (Live.line_y r frame)) /\
    (4 <= 4 ->
       exists t,
         More.simulate_scenario 4 60 (Some profile_cell) Live.T_AMB Live.E_MAX_WH = Ok t /\
         More.soc t = live_nominal_soc 4 60) /\
    (forall st' x,
       (forall k, (k < 20)%nat -> st' k == 0) ->
       length (fst (Lives.mc_noises 0.15 20 st')) = 20%nat /\
       Forall (fun noise => same_cells (Lives.mc_line x noise) (Lives.mc_main_line x))
              (fst (Lives.mc_noises 0.15 20 st'))).
Proof.
  apply (ensemble_with_zero_draws 20 4 60 (Rng.const 0)); [lra | lra |].
  intros k _. reflexivity.
Defined.

(** C7 fails as stated on the script's floats.  With every draw 0 the
    twenty runs of [make_stochastic_gif] are the same array, cell for
    cell, but the mean line is not that run's line: [np.mean] adds the
    twenty equal cells and divides by 20, which rounds.  At the last frame
    the script draws (29) and sample 1 the run's line holds
    [99.943181818181813] and the mean line [99.943181818181841]. *)
Lemma mean_of_equal_runs_rounds :
  exists rs r y m,
    B64.runs 4 60 (repeat (repeat B64.zero_draw 240) 20) = rs /\
    length rs = 20%nat /\ Forall (fun r' => r' = r) rs /\
    nth_error (B64.line_y r 29) 1 = Some y /\
    nth_error (B64.mean_y rs 29) 1 = Some m /\
    B64.same m y = false.
Proof.
  eexists. eexists. eexists. eexists.
  split; [vm_compute; reflexivity|].
  split; [reflexivity|].
  split; [repeat constructor|].
  split; [vm_compute; reflexivity|].
  split; [vm_compute; reflexivity|].
  vm_compute. reflexivity.
Qed.

(** ** Further properties of the three integrators *)

(** X1.  For every catalog scenario and every duration of at least one step,
    [simulate_scenario_fixed] returns a trajectory whose charge never
    rises and stays in [[0,1]] and whose temperature never falls. *)
Theorem lives_soc_monotone_bounded (s_name : string) (s : Lives.scenario) (duration_h : Q) :
  Lives.lookup s_name Lives.scenarios_params = Ok s -> 1 <= duration_h * 60 ->
  exists t,
    Lives.simulate_scenario_fixed s_name duration_h = Ok t /\
    non_increasing (Lives.soc t) /\ Forall (fun x => 0 <= x <= 1) (Lives.soc t) /\
    non_decreasing (Lives.temp t).
Proof.
  intros Hl Hd. destruct (py_int_steps _ Hd) as [n Hn].
  destruct (lives_run_monotone s_name s Hl (catalog_valid _ _ Hl) duration_h n Hn)
    as (t & Ht & _ & _ & _ & H1 & H2 & H3).
  exists t. repeat split; assumption.
Qed.

Lemma lives_soc_monotone_bounded_witness :
  exists t,
    Lives.simulate_scenario_fixed "Navigation" 6 = Ok t /\
    non_increasing (Lives.soc t) /\ Forall (fun x => 0 <= x <= 1) (Lives.soc t) /\
    non_decreasing (Lives.temp t).
Proof.
  apply (lives_soc_monotone_bounded "Navigation"
           (Lives.mkScenario 1 0.6 0.90 2.00 0.20 0.35 0.35 0.80) 6);
    [reflexivity | lra].
Defined.

(** X2.  For a positive step, duration and capacity and a profile that never
    asks for less than [-P_IDLE], [simulate_scenario] returns a trajectory
    whose charge never rises and stays in [[0,1]]. *)
Theorem more_soc_monotone_bounded (duration_h dt_s : Q) (p_profile : option (Q -> Q))
    (t_amb e_max : Q) :
  0 < dt_s -> 0 < duration_h -> 0 < e_max ->
  (forall f t, p_profile = Some f -> 0 <= f t + More.P_IDLE) ->
  exists t,
    More.simulate_scenario duration_h dt_s p_profile t_amb e_max = Ok t /\
    non_increasing (More.soc t) /\ Forall (fun x => 0 <= x <= 1) (More.soc t).
Proof.
  intros Hdt Hdur He Hp.
  destruct (more_run duration_h dt_s p_profile t_amb e_max Hdt Hdur)
    as (t_s & _ & _ & _ & Hrun).
  cbv zeta in Hrun. eexists. split; [exact Hrun|]. cbn [More.soc].
  destruct (more_loop_soc dt_s t_amb e_max
              (removelast (more_p_sys p_profile (map (fun t => t / 3600) t_s))) 1.0 t_amb)
    as [H1 H2]; [assumption | lra | | lra |].
  - apply Forall_removelast. apply Forall_forall. intros p Hin.
    destruct p_profile as [f|]; cbn [more_p_sys] in Hin.
    + apply in_map_iff in Hin. destruct Hin as (t & <- & _). now apply Hp.
    + apply repeat_spec in Hin. subst p. unfold More.P_IDLE. lra.
  - split; [assumption|]. constructor; [lra | assumption].
Qed.

Lemma more_soc_monotone_bounded_witness :
  exists t,
    More.simulate_scenario 5 60 (Some (fun _ => 5.5)) 25.0 22.0 = Ok t /\
    non_increasing (More.soc t) /\ Forall (fun x => 0 <= x <= 1) (More.soc t).
Proof.
  apply (more_soc_monotone_bounded 5 60 (Some (fun _ => 5.5)) 25.0 22.0); try lra.
  intros f t H. injection H as <-. unfold More.P_IDLE. lra.
Defined.

(** X3.  For a positive step and duration, and whatever is drawn, the charge
    [get_live_data] returns falls strictly from sample to sample. *)
Theorem live_soc_strictly_decreasing (duration_h dt_s : Q) (st : Rng.state) :
  0 < dt_s -> 0 < duration_h ->
  exists t,
    fst (Live.get_live_data duration_h dt_s st) = Ok t /\
    strictly_decreasing (Live.soc t) /\
    Forall (fun x => x <= 1) (Live.soc t).
Proof.
  intros Hdt Hdur. unfold Live.get_live_data.
  destruct (live_run 0.1 duration_h dt_s st) as (t_s & _ & _ & _ & Hrun);
    [lra | assumption | assumption |].
  cbv zeta in Hrun. eexists. split; [exact Hrun|]. cbn [Live.soc].
  set (p := removelast (live_p_sys 0.1 (map (fun t => t / 3600) t_s) st)).
  assert (Hp : Forall (fun p_i => 0.1 <= p_i) p)
    by (apply Forall_removelast, live_p_sys_floor).
  split; [now apply live_soc_loop_decreasing|].
  constructor; [lra|]. apply Forall_forall. intros x Hx.
  apply In_nth_error in Hx. destruct Hx as [k Hk].
  pose proof (live_soc_loop_upper dt_s p (Qlt_le_weak _ _ Hdt) Hp 1.0 k x Hk) as Hb.
  pose proof (of_nat_nonneg (S k)) as Hk0.
  unfold Live.E_MAX_WH in Hb. qdiv. nra.
Qed.

Lemma live_soc_strictly_decreasing_witness :
  exists t,
    fst (Live.get_live_data 4 60 (Rng.const 1)) = Ok t /\
    strictly_decreasing (Live.soc t) /\
    Forall (fun x => x <= 1) (Live.soc t).
Proof.
  apply (live_soc_strictly_decreasing 4 60 (Rng.const 1)); lra.
Defined.

(** * More of the three scripts *)

(** ** generate_more_gifs.py: the time grid *)

Lemma nth_error_map_seq (f : nat -> Q) (start n k : nat) (x : Q) :
  nth_error (map f (seq start n)) k = Some x -> (k < n)%nat /\ x = f (start + k)%nat.
Proof.
  revert start k. induction n as [|n IH]; intros start [|k] H; simpl in H; try discriminate.
  - injection H as <-. rewrite Nat.add_0_r. split; [lia | reflexivity].
  - apply IH in H. destruct H as [Hk ->]. split; [lia|]. f_equal. lia.
Qed.



Lemma of_nat_le (a c : nat) : (a <= c)%nat -> of_nat a <= of_nat c.
Proof.
  intro H. unfold of_nat. rewrite <- Zle_Qle. lia.
Qed.




(** ** generate_more_gifs.py: constant power *)

Lemma py_max_0_eq (x y : Q) : x == y -> py_max 0 x == py_max 0 y.
Proof.
  intro H. unfold py_max. rewrite (Qleb_comp x y H 0 0 (Qeq_refl 0)).
  destruct (Qle_bool y 0); [reflexivity | exact H].
Qed.

Lemma py_max_0_nonneg (x : Q) : 0 <= py_max 0 x.
Proof.
  destruct (py_max_0_cases x) as [[_ ->]|[H ->]]; lra.
Qed.

(** The share of the charge one step at constant power [c] takes. *)
Definition constant_drop (dt_s e_max c : Q) : Q :=
  (c + More.P_IDLE) / e_max * (dt_s / 3600).

Section MoreConstant.

Variables dt_s t_amb e_max c : Q.
Hypothesis He : 0 < e_max.
Hypothesis Hdt : 0 <= dt_s.
Hypothesis Hc : 0 <= c + More.P_IDLE.

Lemma constant_drop_nonneg : 0 <= constant_drop dt_s e_max c.
Proof.
  unfold constant_drop. apply Qmult_le_0_compat.
  - apply Qle_shift_div_l; [assumption | lra].
  - qlra.
Qed.

Lemma more_loop_constant (p : list Q) :
  Forall (fun p_i => p_i == c) p ->
  forall (m : nat) (soc_i temp_i : Q),
    soc_i == 1 - of_nat m * constant_drop dt_s e_max c ->
    forall k x,
      nth_error (fst (More.loop dt_s t_amb e_max p soc_i temp_i)) k = Some x ->
      x == py_max 0 (1 - of_nat (m + S k) * constant_drop dt_s e_max c).
Proof.
  pose proof constant_drop_nonneg as Hd.
  induction 1 as [|p_i p Hpi _ IH]; intros m soc_i temp_i Hs k x Hx.
  - destruct k; discriminate.
  - cbn [More.loop] in Hx. cbv zeta in Hx.
    assert (Eraw : soc_i - (p_i + More.P_IDLE) / e_max * (dt_s / 3600)
                   == 1 - of_nat (m + 1) * constant_drop dt_s e_max c).
    { rewrite Hpi, Hs. replace (m + 1)%nat with (S m) by lia. rewrite of_nat_S.
      unfold constant_drop. ring. }
    set (drop := constant_drop dt_s e_max c) in *.
    set (raw := soc_i - (p_i + More.P_IDLE) / e_max * (dt_s / 3600)) in *.
    destruct (Qle_bool (py_max 0 raw) 0) eqn:E.
    + apply Qle_bool_iff in E. cbn [fst] in Hx.
      apply nth_error_In, repeat_spec in Hx. subst x.
      assert (Hraw : raw <= 0).
      { destruct (py_max_0_cases raw) as [[H _]|[H H']]; [assumption|]. rewrite H' in E. lra. }
      rewrite py_max_0_nonpos; [reflexivity|].
      assert (Hk : of_nat (m + 1) <= of_nat (m + S k)) by (apply of_nat_le; lia).
      rewrite Eraw in Hraw. nra.
    + apply Qle_bool_false in E. cbn [fst] in Hx.
      destruct k as [|k]; cbn [nth_error] in Hx.
      * injection Hx as <-. replace (m + 1)%nat with (S m) in Eraw by lia.
        replace (m + 1)%nat with (S m) by lia. now apply py_max_0_eq.
      * replace (m + S (S k))%nat with (S m + S k)%nat by lia.
        eapply IH; [|exact Hx].
        assert (Hpos : 0 < raw).
        { destruct (py_max_0_cases raw) as [[_ H']|[H _]]; [rewrite H' in E; lra | assumption]. }
        rewrite (py_max_0_pos _ Hpos). replace (S m) with (m + 1)%nat by lia. exact Eraw.
Qed.

End MoreConstant.

(** X5.  Coulomb counting at constant power has a closed form: for a
    positive step, duration and capacity and a profile that is the
    constant [c] in every cell (the default profile is [c = 2.0]) with
    [c + P_IDLE >= 0], sample [k] of the charge is
    [max(0, 1 - k * (c + P_IDLE) / e_max * dt_s / 3600)]. *)
Theorem more_constant_power_closed_form (duration_h dt_s : Q) (p_profile : option (Q -> Q))
    (t_amb e_max c : Q) :
  0 < dt_s -> 0 < duration_h -> 0 < e_max -> 0 <= c + More.P_IDLE ->
  (p_profile = None /\ c == 2.0) \/ (exists f, p_profile = Some f /\ forall t, f t == c) ->
  exists t,
    More.simulate_scenario duration_h dt_s p_profile t_amb e_max = Ok t /\
    forall k x, nth_error (More.soc t) k = Some x ->
      x == py_max 0 (1 - of_nat k * ((c + More.P_IDLE) / e_max * (dt_s / 3600))).
Proof.
  intros Hdt Hdur He Hc Hp.
  destruct (more_run duration_h dt_s p_profile t_amb e_max Hdt Hdur)
    as (t_s & _ & _ & _ & Hrun).
  cbv zeta in Hrun. eexists. split; [exact Hrun|]. cbn [More.soc].
  intros [|k] x Hx; cbn [nth_error] in Hx.
  - injection Hx as <-. change (of_nat 0) with 0.
    rewrite py_max_0_pos; lra.
  - apply (more_loop_constant dt_s t_amb e_max c He (Qlt_le_weak _ _ Hdt) Hc _) with (m := 0%nat)
      (k := k) (x := x) in Hx; [exact Hx | | change (of_nat 0) with 0; lra].
    apply Forall_removelast. apply Forall_forall. intros p Hin.
    destruct Hp as [[-> Hc2]|(f & -> & Hf)]; cbn [more_p_sys] in Hin.
    + apply repeat_spec in Hin. subst p. now symmetry.
    + apply in_map_iff in Hin. destruct Hin as (t & <- & _). apply Hf.
Qed.

Lemma more_constant_power_closed_form_witness :
  exists t,
    More.simulate_scenario 5 60 (Some (fun _ => 5.5)) 25.0 22.0 = Ok t /\
    forall k x, nth_error (More.soc t) k = Some x ->
      x == py_max 0 (1 - of_nat k * ((5.5 + More.P_IDLE) / 22.0 * (60 / 3600))).
Proof.
  apply (more_constant_power_closed_form 5 60 (Some (fun _ => 5.5)) 25.0 22.0 5.5);
    unfold More.P_IDLE; try lra.
  right. exists (fun _ => 5.5). split; [reflexivity | intro; reflexivity].
Defined.

(** ** generate_more_gifs.py: comparing two runs *)

Lemma more_loop_nonneg (dt_s t_amb e_max : Q) (p : list Q) (soc_i temp_i : Q) :
  Forall (fun x => 0 <= x) (fst (More.loop dt_s t_amb e_max p soc_i temp_i)).
Proof.
  revert soc_i temp_i. induction p as [|p_i p IH]; intros soc_i temp_i; [constructor|].
  cbn [More.loop]. cbv zeta. destruct (Qle_bool _ 0).
  - cbn [fst]. apply Forall_forall. intros x Hx. apply repeat_spec in Hx. subst x. lra.
  - cbn [fst]. constructor; [apply py_max_0_nonneg | apply IH].
Qed.

Lemma above_zeros (l : list Q) (n : nat) :
  Forall (fun x => 0 <= x) l -> length l = n ->
  Forall2 (fun a z => z <= a) l (repeat 0 n).
Proof.
  intros H <-. induction H; simpl; constructor; assumption.
Qed.

Lemma Forall2_removelast {A B : Type} (R : A -> B -> Prop) (l1 : list A) (l2 : list B) :
  Forall2 R l1 l2 -> Forall2 R (removelast l1) (removelast l2).
Proof.
  induction 1 as [|x y l1 l2 Hxy Hl IH]; [constructor|].
  destruct Hl as [|x' y' l1 l2 Hxy' Hl].
  - constructor.
  - change (Forall2 R (x :: removelast (x' :: l1)) (y :: removelast (y' :: l2))).
    constructor; assumption.
Qed.

Lemma Forall2_length_eq {A B : Type} (R : A -> B -> Prop) (l1 : list A) (l2 : list B) :
  Forall2 R l1 l2 -> length l1 = length l2.
Proof.
  induction 1; simpl; congruence.
Qed.

(** A run that draws less power keeps at least as much charge. *)
Lemma more_loop_power_monotone (dt_s e_max : Q) (p p' : list Q) :
  0 < e_max -> 0 <= dt_s -> Forall2 Qle p p' ->
  forall t_amb t_amb' soc_i soc_i' temp_i temp_i',
    soc_i' <= soc_i ->
    Forall2 (fun a a' => a' <= a)
      (fst (More.loop dt_s t_amb e_max p soc_i temp_i))
      (fst (More.loop dt_s t_amb' e_max p' soc_i' temp_i')).
Proof.
  intros He Hdt Hp. induction Hp as [|p_i p_i' p p' Hle Hp IH];
    intros t_amb t_amb' soc_i soc_i' temp_i temp_i' Hs; [constructor|].
  cbn [More.loop]. cbv zeta.
  assert (Hraw : soc_i' - (p_i' + More.P_IDLE) / e_max * (dt_s / 3600)
                 <= soc_i - (p_i + More.P_IDLE) / e_max * (dt_s / 3600)).
  { assert (Hi : 0 < / e_max) by now apply Qinv_lt_0_compat.
    unfold Qdiv. cbn [Qinv Qnum Qden].
    assert (0 <= (p_i' - p_i) * / e_max) by (apply Qmult_le_0_compat; lra).
    nra. }
  set (raw := soc_i - (p_i + More.P_IDLE) / e_max * (dt_s / 3600)) in *.
  set (raw' := soc_i' - (p_i' + More.P_IDLE) / e_max * (dt_s / 3600)) in *.
  assert (Hmax : py_max 0 raw' <= py_max 0 raw).
  { destruct (py_max_0_cases raw) as [[H ->]|[H ->]];
      destruct (py_max_0_cases raw') as [[H' ->]|[H' ->]]; lra. }
  pose proof (Forall2_length_eq _ _ _ Hp) as Hlen.
  destruct (Qle_bool (py_max 0 raw) 0) eqn:E; destruct (Qle_bool (py_max 0 raw') 0) eqn:E'.
  - cbn [fst]. rewrite Hlen. clear. induction (S (length p')); simpl; constructor; [lra | assumption].
  - apply Qle_bool_iff in E. apply Qle_bool_false in E'. lra.
  - cbn [fst]. rewrite <- Hlen. apply above_zeros.
    + constructor; [apply py_max_0_nonneg | apply more_loop_nonneg].
    + cbn [length]. f_equal. apply more_loop_length.
  - cbn [fst]. constructor; [exact Hmax | now apply IH].
Qed.

(** The profiles of the three animations of [generate_more_gifs.py]; each
    is [np.full_like(t, v)], the first two followed by [p[t > 2] = w]. *)
Module MoreProfiles.

Definition normal_profile (t : Q) : Q := if Qlt_bool 2 t then 4.5 else 2.5.
Definition low_power_profile (t : Q) : Q := if Qlt_bool 2 t then 2.0 else 1.5.
Definition heavy_profile (t : Q) : Q := 3.5.

End MoreProfiles.

(** ** The gaming marathon: a run that depletes *)



Lemma map_pointwise_le (f g : Q -> Q) (l : list Q) :
  (forall t, f t <= g t) -> Forall2 Qle (map f l) (map g l).
Proof.
  intro H. induction l as [|t l IH]; simpl; constructor; [apply H | exact IH].
Qed.

(** X6.  Less power, more charge: for a positive step, duration and
    capacity, if one profile asks for no more power than another in every
    cell, its run has at least as much charge at every sample (whatever
    the two ambient temperatures). *)
Theorem more_less_power_more_charge (duration_h dt_s : Q) (f g : Q -> Q)
    (t_amb t_amb' e_max : Q) :
  0 < dt_s -> 0 < duration_h -> 0 < e_max -> (forall t, f t <= g t) ->
  exists t1 t2,
    More.simulate_scenario duration_h dt_s (Some f) t_amb e_max = Ok t1 /\
    More.simulate_scenario duration_h dt_s (Some g) t_amb' e_max = Ok t2 /\
    Forall2 (fun s1 s2 => s2 <= s1) (More.soc t1) (More.soc t2).
Proof.
  intros Hdt Hdur He Hfg.
  destruct (more_run duration_h dt_s (Some f) t_amb e_max Hdt Hdur) as (s1 & A1 & _ & _ & R1).
  destruct (more_run duration_h dt_s (Some g) t_amb' e_max Hdt Hdur) as (s2 & A2 & _ & _ & R2).
  rewrite A1 in A2. injection A2 as <-.
  cbv zeta in R1, R2. eexists. eexists. split; [exact R1|]. split; [exact R2|].
  cbn [More.soc more_p_sys]. constructor; [lra|].
  apply more_loop_power_monotone; [assumption | lra | | lra].
  apply Forall2_removelast. now apply map_pointwise_le.
Qed.

Lemma more_less_power_more_charge_witness :
  exists t1 t2,
    More.simulate_scenario 8 60 (Some MoreProfiles.low_power_profile) 25.0 22.0 = Ok t1 /\
    More.simulate_scenario 8 60 (Some MoreProfiles.normal_profile) 25.0 22.0 = Ok t2 /\
    Forall2 (fun s1 s2 => s2 <= s1) (More.soc t1) (More.soc t2).
Proof.
  apply (more_less_power_more_charge 8 60 MoreProfiles.low_power_profile
           MoreProfiles.normal_profile 25.0 25.0 22.0); try lra.
  intro t. unfold MoreProfiles.low_power_profile, MoreProfiles.normal_profile.
  destruct (Qlt_bool 2 t); lra.
Defined.

(** *** A different ambient temperature *)

Lemma thermal_step_gifs_shift (dt_s t_amb t_amb' p T T' : Q) :
  T' - T == t_amb' - t_amb ->
  thermal_step_gifs t_amb' More.R_TH More.C_TH dt_s p T'
  - thermal_step_gifs t_amb More.R_TH More.C_TH dt_s p T == t_amb' - t_amb.
Proof.
  intro H. unfold thermal_step_gifs, More.R_TH, More.C_TH. cbv zeta.
  assert (E : T' + (p / 120.0 - (T' - t_amb') / (3.2 * 120.0)) * dt_s
              - (T + (p / 120.0 - (T - t_amb) / (3.2 * 120.0)) * dt_s)
              == (T' - T) - ((T' - T) - (t_amb' - t_amb)) * (dt_s / (3.2 * 120.0)))
    by (field; lra).
  rewrite E, H. ring.
Qed.

Lemma relax_step_shift (dt_s t_amb t_amb' T T' : Q) :
  T' - T == t_amb' - t_amb ->
  relax_step t_amb' More.R_TH More.C_TH dt_s T'
  - relax_step t_amb More.R_TH More.C_TH dt_s T == t_amb' - t_amb.
Proof.
  intro H. unfold relax_step, More.R_TH, More.C_TH. cbv zeta.
  assert (E : T' + - (T' - t_amb') / (3.2 * 120.0) * dt_s
              - (T + - (T - t_amb) / (3.2 * 120.0) * dt_s)
              == (T' - T) - ((T' - T) - (t_amb' - t_amb)) * (dt_s / (3.2 * 120.0)))
    by (field; lra).
  rewrite E, H. ring.
Qed.

Lemma relax_shift (dt_s t_amb t_amb' : Q) (n : nat) (T T' : Q) :
  T' - T == t_amb' - t_amb ->
  Forall2 (fun a a' => a' - a == t_amb' - t_amb)
    (More.relax dt_s t_amb n T) (More.relax dt_s t_amb' n T').
Proof.
  revert T T'. induction n as [|n IH]; intros T T' H; simpl; constructor.
  - now apply relax_step_shift.
  - apply IH. now apply relax_step_shift.
Qed.

Lemma more_loop_shift (dt_s t_amb t_amb' e_max : Q) (p : list Q) (soc_i T T' : Q) :
  T' - T == t_amb' - t_amb ->
  fst (More.loop dt_s t_amb e_max p soc_i T) = fst (More.loop dt_s t_amb' e_max p soc_i T') /\
  Forall2 (fun a a' => a' - a == t_amb' - t_amb)
    (snd (More.loop dt_s t_amb e_max p soc_i T)) (snd (More.loop dt_s t_amb' e_max p soc_i T')).
Proof.
  revert soc_i T T'. induction p as [|p_i p IH]; intros soc_i T T' H.
  - split; [reflexivity | constructor].
  - cbn [More.loop]. cbv zeta.
    pose proof (thermal_step_gifs_shift dt_s t_amb t_amb' (p_i + More.P_IDLE) T T' H) as H1.
    destruct (Qle_bool _ 0).
    + cbn [fst snd]. split; [reflexivity|]. constructor; [exact H1 | now apply relax_shift].
    + cbn [fst snd]. destruct (IH (py_max 0 (soc_i - (p_i + More.P_IDLE) / e_max * (dt_s / 3600)))
                                 _ _ H1) as [-> Ht].
      split; [reflexivity|]. constructor; assumption.
Qed.

(** X7 (in exact arithmetic).  The ambient temperature only shifts the
    temperature trace: two runs (of non-zero capacity) that differ in
    [t_amb] alone return the same time grid, power and charge, none of
    which depends on [t_amb], and at every sample their temperatures,
    taken as exact rationals, differ by the difference of the two ambient
    temperatures. *)
Theorem more_ambient_shift (duration_h dt_s : Q) (p_profile : option (Q -> Q))
    (t_amb t_amb' e_max : Q) :
  0 < dt_s -> 0 < duration_h -> ~ e_max == 0 ->
  exists t1 t2,
    More.simulate_scenario duration_h dt_s p_profile t_amb e_max = Ok t1 /\
    More.simulate_scenario duration_h dt_s p_profile t_amb' e_max = Ok t2 /\
    More.t_h t1 = More.t_h t2 /\ More.p_sys t1 = More.p_sys t2 /\
    More.soc t1 = More.soc t2 /\
    Forall2 (fun T1 T2 => T2 - T1 == t_amb' - t_amb) (More.temp t1) (More.temp t2).
Proof.
  intros Hdt Hdur _.
  destruct (more_run duration_h dt_s p_profile t_amb e_max Hdt Hdur) as (s1 & A1 & _ & _ & R1).
  destruct (more_run duration_h dt_s p_profile t_amb' e_max Hdt Hdur) as (s2 & A2 & _ & _ & R2).
  rewrite A1 in A2. injection A2 as <-.
  cbv zeta in R1, R2. eexists. eexists. split; [exact R1|]. split; [exact R2|].
  cbn [More.t_h More.p_sys More.soc More.temp].
  destruct (more_loop_shift dt_s t_amb t_amb' e_max
              (removelast (more_p_sys p_profile (map (fun t => t / 3600) s1))) 1.0 t_amb t_amb')
    as [Es Et]; [ring|].
  split; [reflexivity|]. split; [reflexivity|]. split; [now rewrite Es|].
  constructor; [ring | exact Et].
Qed.

Lemma more_ambient_shift_witness :
  exists t1 t2,
    More.simulate_scenario 5 60 (Some MoreProfiles.heavy_profile) 25.0 22.0 = Ok t1 /\
    More.simulate_scenario 5 60 (Some MoreProfiles.heavy_profile) 40.0 22.0 = Ok t2 /\
    More.t_h t1 = More.t_h t2 /\ More.p_sys t1 = More.p_sys t2 /\
    More.soc t1 = More.soc t2 /\
    Forall2 (fun T1 T2 => T2 - T1 == 40.0 - 25.0) (More.temp t1) (More.temp t2).
Proof.
  apply (more_ambient_shift 5 60 (Some MoreProfiles.heavy_profile) 25.0 40.0 22.0); lra.
Defined.

(** ** The temperature stays between ambient and the steady state *)







(** *** The same bound from below for get_live_data *)

Lemma live_temp_loop_floor (dt_s : Q) (p : list Q) :
  0 <= dt_s -> dt_s <= Live.R_TH * Live.C_TH ->
  Forall (fun p_i => 0.1 <= p_i) p ->
  forall T, Live.T_AMB <= T ->
    Forall (fun x => Live.T_AMB <= x) (Live.temp_loop dt_s p T).
Proof.
  intros H0 H1 Hp. induction Hp as [|p_i p Hpi _ IH]; intros T HT; [constructor|].
  cbn [Live.temp_loop]. cbv zeta.
  assert (Hstep : Live.T_AMB
                  <= thermal_step_gifs Live.T_AMB Live.R_TH Live.C_TH dt_s (p_i + Live.P_IDLE) T).
  { unfold thermal_step_gifs, Live.R_TH, Live.C_TH, Live.P_IDLE, Live.T_AMB in *. cbv zeta.
    assert (E : T + ((p_i + 0.25) / 120.0 - (T - 25.0) / (3.2 * 120.0)) * dt_s
                == 25.0 + (1 - dt_s * (100 # 38400)) * (T - 25.0)
                   + dt_s * (100 # 38400) * (3.2 * (p_i + 0.25))) by (field; lra).
    rewrite E. clear E.
    set (k := dt_s * (100 # 38400)).
    assert (Hk : 0 <= k <= 1) by (unfold k; lra).
    assert (A1 : 0 <= (1 - k) * (T - 25.0)) by (apply Qmult_le_0_compat; lra).
    assert (A2 : 0 <= k * (3.2 * (p_i + 0.25))) by (apply Qmult_le_0_compat; lra).
    lra. }
  constructor; [exact Hstep | now apply IH].
Qed.

(** X9.  For a step of at most [R_TH * C_TH] (384 s) and whatever noise is
    drawn, no temperature sample of [get_live_data] lies below ambient:
    the power is floored at [0.1 W] before it is integrated. *)
Theorem live_temperature_floor (duration_h dt_s : Q) (st : Rng.state) :
  0 < dt_s -> dt_s <= Live.R_TH * Live.C_TH -> 0 < duration_h ->
  exists t,
    fst (Live.get_live_data duration_h dt_s st) = Ok t /\
    length (Live.temp t) = length (Live.t_h t) /\
    Forall (fun T => Live.T_AMB <= T) (Live.temp t).
Proof.
  intros Hdt Hmax Hdur. unfold Live.get_live_data.
  destruct (live_run 0.1 duration_h dt_s st) as (t_s & _ & Hpos & _ & Hrun);
    [lra | assumption | assumption |].
  cbv zeta in Hrun. eexists. split; [exact Hrun|]. cbn [Live.temp Live.t_h].
  split.
  - cbn [length]. rewrite live_temp_loop_length, removelast_length, live_p_sys_length.
    rewrite length_map in *. lia.
  - constructor; [lra|].
    apply live_temp_loop_floor; [lra | assumption | | lra].
    apply Forall_removelast, live_p_sys_floor.
Qed.

Lemma live_temperature_floor_witness :
  exists t,
    fst (Live.get_live_data 4 60 (Rng.const (-1))) = Ok t /\
    length (Live.temp t) = length (Live.t_h t) /\
    Forall (fun T => Live.T_AMB <= T) (Live.temp t).
Proof.
  apply (live_temperature_floor 4 60 (Rng.const (-1))); unfold Live.R_TH, Live.C_TH; lra.
Defined.

(** ** generate_comprehensive_lives.py: where a run ends *)

Section LivesTruncation.

Variable s_name : string.
Variable s : Lives.scenario.
Hypothesis Hlookup : Lives.lookup s_name Lives.scenarios_params = Ok s.
Hypothesis Hvalid : valid_scenario s.

(** The loop stops right behind the first cell that is not positive;
    every positive cell lies at least [1.15 W] worth of charge per step
    below the start. *)
Lemma lives_loop_truncate (n : nat) (soc_i temp_i : Q) :
  heating s temp_i ->
  exists socs temps,
    Lives.loop s_name n soc_i temp_i = Ok (socs, temps) /\
    (length socs <= n)%nat /\
    Forall (fun x => 0 <= x) socs /\
    (forall k x, nth_error socs k = Some x -> x <= 0 -> S k = length socs) /\
    ((length socs < n)%nat ->
       exists x, nth_error socs (length socs - 1) = Some x /\ x <= 0) /\
    (forall k x, nth_error socs k = Some x -> 0 < x ->
       x <= soc_i - of_nat (S k) * (1.15 / Lives.E_MAX_WH * (1 / 60))).
Proof.
  revert soc_i temp_i. induction n as [|n IH]; intros soc_i temp_i Hh.
  - exists [], []. split; [reflexivity|]. split; [simpl; lia|]. split; [constructor|].
    split; [intros [|k] x Hx; discriminate|].
    split; [simpl; lia | intros [|k] x Hx; discriminate].
  - cbn [Lives.loop]. rewrite (get_scenario_power_ok s_name s temp_i Hlookup).
    cbn [bind]. cbv zeta.
    pose proof (heating_step s temp_i Hvalid Hh) as [_ Hh1].
    pose proof (power_above_ambient s temp_i Hvalid (proj1 Hh)) as Hp.
    set (p := Lives.scenario_power s temp_i) in *.
    set (raw := soc_i - p / Lives.E_MAX_WH * (1 / 60)).
    assert (Hraw : raw <= soc_i - 1.15 / Lives.E_MAX_WH * (1 / 60))
      by (unfold raw, Lives.E_MAX_WH; qlra).
    pose proof (py_max_0_nonneg raw) as Hnn.
    destruct (Qle_bool (py_max 0 raw) 0) eqn:E.
    + apply Qle_bool_iff in E. exists [py_max 0 raw]. eexists.
      split; [reflexivity|]. split; [simpl; lia|].
      split; [constructor; [assumption | constructor]|].
      split; [intros [|[|k]] x Hx; try discriminate; reflexivity|].
      split; [intros _; exists (py_max 0 raw); split; [reflexivity | assumption]|].
      intros [|[|k]] x Hx Hpos; try discriminate. injection Hx as <-. lra.
    + apply Qle_bool_false in E.
      assert (Hpos : 0 < raw).
      { destruct (py_max_0_cases raw) as [[_ H']|[H _]]; [rewrite H' in E; lra | assumption]. }
      rewrite (py_max_0_pos _ Hpos) in *.
      destruct (IH raw _ Hh1) as (socs & temps & Hl & Hlen & Hall & Hlast & Hcut & Hup).
      rewrite Hl. cbn [bind fst snd]. exists (raw :: socs). eexists.
      split; [reflexivity|]. split; [simpl; lia|].
      split; [constructor; [lra | assumption]|].
      split.
      * intros [|k] x Hx Hx0; cbn [nth_error] in Hx.
        -- injection Hx as <-. lra.
        -- cbn [length]. f_equal. now apply (Hlast k x).
      * split.
        -- intro Hlt. cbn [length] in *.
           destruct Hcut as (x & Hx & Hx0); [lia|]. exists x. split; [|assumption].
           destruct socs as [|a socs]; [destruct (0 - 1)%nat; discriminate|].
           cbn [length] in *. replace (S (S (length socs)) - 1)%nat with (S (length socs)) by lia.
           replace (S (length socs) - 1)%nat with (length socs) in Hx by lia. exact Hx.
        -- intros [|k] x Hx Hx0; cbn [nth_error] in Hx.
           ++ injection Hx as <-. change (of_nat 1) with 1. lra.
           ++ pose proof (Hup k x Hx Hx0) as Hb. rewrite (of_nat_S (S k)). lra.
Qed.

End LivesTruncation.

Lemma lives_run_truncate (s_name : string) (s : Lives.scenario) (duration_h : Q) (n : nat) :
  Lives.lookup s_name Lives.scenarios_params = Ok s ->
  py_int (duration_h * 60) = Z.of_nat (S n) ->
  exists t,
    Lives.simulate_scenario_fixed s_name duration_h = Ok t /\
    (length (Lives.soc t) <= S n)%nat /\
    length (Lives.temp t) = length (Lives.soc t) /\
    length (Lives.t_h t) = length (Lives.soc t) /\
    (forall k x, nth_error (Lives.soc t) k = Some x ->
       (S k < length (Lives.soc t))%nat -> 0 < x) /\
    ((length (Lives.soc t) < S n)%nat ->
       exists x, nth_error (Lives.soc t) (length (Lives.soc t) - 1) = Some x /\ x == 0) /\
    (forall k x, nth_error (Lives.soc t) k = Some x -> 0 < x ->
       x <= 1 - of_nat k * (1.15 / Lives.E_MAX_WH * (1 / 60))).
Proof.
  intros Hl Hsteps. pose proof (catalog_valid _ _ Hl) as V.
  destruct (lives_loop_truncate s_name s Hl V n 1.0 Lives.T_AMB (heating_initial s V))
    as (socs & temps & Hloop & Hlen & Hall & Hlast & Hcut & Hup).
  destruct (lives_loop_monotone s_name s Hl V n 1.0 Lives.T_AMB) as
    (socs' & temps' & Hloop' & Hlt & _); [lra | now apply heating_initial |].
  rewrite Hloop in Hloop'. injection Hloop' as <- <-.
  unfold Lives.simulate_scenario_fixed. cbv zeta. rewrite Hsteps.
  destruct (steps_tests n) as (-> & -> & -> & ->).
  rewrite Hloop. cbn [bind fst snd]. eexists. split; [reflexivity|].
  cbn [Lives.soc Lives.temp Lives.t_h].
  split; [simpl; lia|]. split; [simpl; lia|].
  split; [rewrite length_firstn, np_linspace_length; simpl; lia|].
  split.
  - intros [|k] x Hx Hk; cbn [nth_error] in Hx.
    + injection Hx as <-. lra.
    + destruct (Qlt_le_dec 0 x) as [Hpos|Hneg]; [assumption|].
      pose proof (Hlast k x Hx Hneg). simpl in Hk. lia.
  - split.
    + intro Hlt'. cbn [length] in *. destruct Hcut as (x & Hx & Hx0); [lia|].
      exists x. rewrite Forall_forall in Hall.
      pose proof (Hall x (nth_error_In _ _ Hx)) as Hx1. cbv beta in Hx1.
      split; [|lra].
      destruct socs as [|a socs]; [destruct (0 - 1)%nat; discriminate|].
      cbn [length] in *. replace (S (S (length socs)) - 1)%nat with (S (length socs)) by lia.
      replace (S (length socs) - 1)%nat with (length socs) in Hx by lia. exact Hx.
    + intros [|k] x Hx Hx0; cbn [nth_error] in Hx.
      * injection Hx as <-. change (of_nat 0) with 0. lra.
      * pose proof (Hup k x Hx Hx0) as Hb. lra.
Qed.

(** X10.  The truncate policy of [simulate_scenario_fixed]: for a catalog
    scenario and a duration of at least one step, the three arrays have
    one length of at most [int(duration_h * 60)]; the charge is positive
    at every sample but possibly the last; and when the arrays are shorter
    than the requested step count, the last sample has charge 0 (the run
    was cut at depletion). *)
Theorem lives_truncate_policy (s_name : string) (s : Lives.scenario) (duration_h : Q) :
  Lives.lookup s_name Lives.scenarios_params = Ok s -> 1 <= duration_h * 60 ->
  exists t,
    Lives.simulate_scenario_fixed s_name duration_h = Ok t /\
    (Z.of_nat (length (Lives.soc t)) <= py_int (duration_h * 60))%Z /\
    length (Lives.temp t) = length (Lives.soc t) /\
    length (Lives.t_h t) = length (Lives.soc t) /\
    (forall k x, nth_error (Lives.soc t) k = Some x ->
       (S k < length (Lives.soc t))%nat -> 0 < x) /\
    ((Z.of_nat (length (Lives.soc t)) < py_int (duration_h * 60))%Z ->
       exists x, nth_error (Lives.soc t) (length (Lives.soc t) - 1) = Some x /\ x == 0).
Proof.
  intros Hl Hd. destruct (py_int_steps _ Hd) as [n Hn].
  destruct (lives_run_truncate s_name s duration_h n Hl Hn)
    as (t & Ht & Hlen & HT & Hth & Hpos & Hcut & _).
  exists t. rewrite Hn. split; [assumption|]. split; [lia|].
  split; [assumption|]. split; [assumption|]. split; [assumption|].
  intro H. apply Hcut. lia.
Qed.

Lemma lives_truncate_policy_witness :
  exists t,
    Lives.simulate_scenario_fixed "Gaming" 6 = Ok t /\
    (Z.of_nat (length (Lives.soc t)) <= py_int (6 * 60))%Z /\
    length (Lives.temp t) = length (Lives.soc t) /\
    length (Lives.t_h t) = length (Lives.soc t) /\
    (forall k x, nth_error (Lives.soc t) k = Some x ->
       (S k < length (Lives.soc t))%nat -> 0 < x) /\
    ((Z.of_nat (length (Lives.soc t)) < py_int (6 * 60))%Z ->
       exists x, nth_error (Lives.soc t) (length (Lives.soc t) - 1) = Some x /\ x == 0).
Proof.
  apply (lives_truncate_policy "Gaming" gaming 6); [reflexivity | lra].
Defined.

(** X11.  No catalog scenario lasts longer than 1148 steps: every
    scenario draws at least [1.15 W], so whatever the requested duration
    [simulate_scenario_fixed] returns at most 1149 samples, and a request
    for more steps than that ends with an empty battery. *)
Theorem lives_time_to_empty_bound (s_name : string) (s : Lives.scenario) (duration_h : Q) :
  Lives.lookup s_name Lives.scenarios_params = Ok s -> 1 <= duration_h * 60 ->
  exists t,
    Lives.simulate_scenario_fixed s_name duration_h = Ok t /\
    (length (Lives.soc t) <= 1149)%nat /\
    ((1149 < py_int (duration_h * 60))%Z ->
       exists x, nth_error (Lives.soc t) (length (Lives.soc t) - 1) = Some x /\ x == 0).
Proof.
  intros Hl Hd. destruct (py_int_steps _ Hd) as [n Hn].
  destruct (lives_run_truncate s_name s duration_h n Hl Hn)
    as (t & Ht & Hlen & _ & _ & Hpos & Hcut & Hup).
  assert (Hcap : (length (Lives.soc t) <= 1149)%nat).
  { apply Nat.nlt_ge. intro Hbig.
    destruct (nth_error (Lives.soc t) 1148) as [x|] eqn:Hx;
      [|apply nth_error_None in Hx; lia].
    assert (Hx0 : 0 < x) by (apply (Hpos 1148%nat x Hx); lia).
    pose proof (Hup 1148%nat x Hx Hx0) as Hb.
    assert (Hneg : 1 - of_nat 1148 * (1.15 / Lives.E_MAX_WH * (1 / 60)) < 0)
      by (vm_compute; reflexivity).
    lra. }
  exists t. split; [assumption|]. split; [assumption|].
  intro H. apply Hcut. rewrite Hn in H. lia.
Qed.

Lemma lives_time_to_empty_bound_witness :
  exists t,
    Lives.simulate_scenario_fixed "Idle" 24 = Ok t /\
    (length (Lives.soc t) <= 1149)%nat /\
    ((1149 < py_int (24 * 60))%Z ->
       exists x, nth_error (Lives.soc t) (length (Lives.soc t) - 1) = Some x /\ x == 0).
Proof.
  apply (lives_time_to_empty_bound "Idle" idle 24); [reflexivity | lra].
Defined.

(** ** generate_comprehensive_lives.py: short durations and unknown names *)

Lemma lookup_raises_key_error (s_name : string) (d : list (string * Lives.scenario)) (e : exn) :
  Lives.lookup s_name d = Raise e -> e = KeyError.
Proof.
  induction d as [|[k v] d IH]; simpl.
  - intro H. now injection H as <-.
  - destruct (String.eqb k s_name); [discriminate | exact IH].
Qed.

Lemma py_int_floor (x : Q) (z : Z) :
  0 <= x -> inject_Z z <= x -> x < inject_Z (z + 1) -> py_int x = z.
Proof.
  intros H0 Hlo Hhi. unfold py_int.
  assert (E : Qle_bool 0 x = true) by now apply Qle_bool_iff.
  rewrite E. pose proof (Qfloor_le x) as F1. pose proof (Qlt_floor x) as F2.
  assert (A : (z < Qfloor x + 1)%Z) by (rewrite Zlt_Qlt; lra).
  assert (B : (Qfloor x < z + 1)%Z) by (rewrite Zlt_Qlt; lra).
  lia.
Qed.

Lemma py_int_small (x : Q) : -1 < x -> x < 1 -> py_int x = 0%Z.
Proof.
  intros Hlo Hhi. destruct (Qlt_le_dec x 0) as [Hneg|Hpos].
  - unfold py_int. apply Qle_bool_false in Hneg. rewrite Hneg. apply Qle_bool_false in Hneg.
    pose proof (Qle_ceiling x) as C1. pose proof (Qceiling_lt x) as C2.
    assert (A : (-1 < Qceiling x)%Z) by (rewrite Zlt_Qlt; change (inject_Z (-1)) with (-1 # 1); lra).
    assert (B : (Qceiling x - 1 < 0)%Z) by (rewrite Zlt_Qlt; change (inject_Z 0) with 0; lra).
    lia.
  - apply py_int_floor; [assumption | change (inject_Z 0) with 0; lra |
                         change (inject_Z (0 + 1)) with 1; lra].
Qed.

Lemma py_int_negative (x : Q) : x <= -1 -> (py_int x < 0)%Z.
Proof.
  intro H. unfold py_int.
  assert (E : Qle_bool 0 x = false) by (apply Qle_bool_false; lra).
  rewrite E. pose proof (Qceiling_resp_le x (-1 # 1) H) as C.
  change (Qceiling (-1 # 1)) with (-1)%Z in C. lia.
Qed.

(** X12.  What [simulate_scenario_fixed] does at the edges.  A duration
    of minus one step or less raises [ValueError] (the arrays cannot be
    made); a duration strictly between minus one and one step raises
    [IndexError] (the arrays are empty and [soc[0] = 1.0] fails).  A name
    that is not in the catalog raises [KeyError] once the loop runs, that
    is for two steps or more; for exactly one step the catalog is never
    consulted and the call returns the single initial sample. *)
Theorem lives_edge_behaviour (s_name : string) (duration_h : Q) :
  (duration_h * 60 <= -1 ->
     Lives.simulate_scenario_fixed s_name duration_h = Raise ValueError) /\
  (-1 < duration_h * 60 -> duration_h * 60 < 1 ->
     Lives.simulate_scenario_fixed s_name duration_h = Raise IndexError) /\
  ((exists e, Lives.lookup s_name Lives.scenarios_params = Raise e) ->
     (2 <= duration_h * 60 ->
        Lives.simulate_scenario_fixed s_name duration_h = Raise KeyError) /\
     (1 <= duration_h * 60 -> duration_h * 60 < 2 ->
        exists t,
          Lives.simulate_scenario_fixed s_name duration_h = Ok t /\
          Lives.soc t = [1.0] /\ Lives.temp t = [Lives.T_AMB] /\
          length (Lives.t_h t) = 1%nat)).
Proof.
  split; [|split].
  - intro H. unfold Lives.simulate_scenario_fixed. cbv zeta.
    pose proof (py_int_negative _ H) as Hn. apply Z.ltb_lt in Hn. now rewrite Hn.
  - intros Hlo Hhi. unfold Lives.simulate_scenario_fixed. cbv zeta.
    rewrite (py_int_small _ Hlo Hhi). reflexivity.
  - intros [e He]. pose proof (lookup_raises_key_error _ _ _ He). subst e. split.
    + intro H.
      assert (H1 : 1 <= duration_h * 60) by lra.
      destruct (py_int_steps _ H1) as [n Hn].
      assert (Hn2 : (2 <= py_int (duration_h * 60))%Z).
      { unfold py_int. assert (E : Qle_bool 0 (duration_h * 60) = true)
          by (apply Qle_bool_iff; lra).
        rewrite E. change 2%Z with (Qfloor 2). now apply Qfloor_resp_le. }
      unfold Lives.simulate_scenario_fixed. cbv zeta. rewrite Hn.
      destruct (steps_tests n) as (-> & -> & -> & ->).
      destruct n as [|n]; [rewrite Hn in Hn2; lia|].
      cbn [Lives.loop]. unfold Lives.get_scenario_power. rewrite He. reflexivity.
    + intros Hlo Hhi.
      assert (E : py_int (duration_h * 60) = 1%Z).
      { apply py_int_floor; [lra | change (inject_Z 1) with 1; lra |
                             change (inject_Z (1 + 1)) with 2; lra]. }
      unfold Lives.simulate_scenario_fixed. cbv zeta. rewrite E.
      eexists. split; [reflexivity|]. repeat split.
Qed.

(** ** generate_comprehensive_lives.py: the time axis *)

Lemma np_linspace_cell (stop : Q) (num k : nat) (x : Q) :
  nth_error (np_linspace stop num) k = Some x ->
  (k < num)%nat /\ x = of_nat k * (stop / of_nat (num - 1)).
Proof.
  unfold np_linspace. intro H. apply nth_error_map_seq in H. exact H.
Qed.

Lemma py_int_of_nat (x : Q) (n : nat) : x == of_nat n -> py_int x = Z.of_nat n.
Proof.
  intro H. unfold py_int.
  assert (E : Qle_bool 0 x = true).
  { apply Qle_bool_iff. rewrite H. apply of_nat_nonneg. }
  rewrite E, H. unfold of_nat. apply Qfloor_Z.
Qed.

(** For a duration of [n + 1 >= 2] whole minutes, in exact arithmetic:
    the axis is [np.linspace(0, duration_h, n + 1)], so sample [k] is
    labelled [k * duration_h / n] hours. *)
Lemma lives_time_axis_minutes (s_name : string) (s : Lives.scenario) (duration_h : Q)
    (n : nat) :
  Lives.lookup s_name Lives.scenarios_params = Ok s ->
  (1 <= n)%nat -> duration_h * 60 == of_nat (S n) ->
  exists t,
    Lives.simulate_scenario_fixed s_name duration_h = Ok t /\
    length (Lives.t_h t) = length (Lives.soc t) /\
    forall k x, nth_error (Lives.t_h t) k = Some x ->
      x == of_nat k * (duration_h / of_nat n) /\
      ((1 <= k)%nat -> of_nat k * (1 / 60) < x) /\
      (k = n -> x == duration_h).
Proof.
  intros Hl Hn Hd. pose proof (py_int_of_nat _ _ Hd) as Hsteps.
  destruct (lives_run_truncate s_name s duration_h n Hl Hsteps)
    as (t & Ht & _ & _ & Hth & _).
  exists t. split; [assumption|]. split; [assumption|].
  intros k x Hx. revert Ht Hx. unfold Lives.simulate_scenario_fixed. cbv zeta.
  rewrite Hsteps. destruct (steps_tests n) as (-> & -> & -> & ->).
  destruct (Lives.loop s_name n 1.0 Lives.T_AMB) as [r|e]; cbn [bind]; [|discriminate].
  intro H.
  assert (Et : Lives.t_h t = firstn (length (1.0 :: fst r)) (np_linspace duration_h (S n)))
    by (injection H as <-; reflexivity).
  rewrite Et. clear H Et. intro Hx.
  rewrite nth_error_firstn in Hx. destruct (Nat.ltb k _); [|discriminate].
  apply np_linspace_cell in Hx. destruct Hx as [Hk ->].
  replace (S n - 1)%nat with n by lia.
  pose proof (of_nat_pos n Hn) as Hnpos. pose proof (of_nat_nonneg k) as Hk0.
  rewrite of_nat_S in Hd.
  assert (Ed : duration_h == (of_nat n + 1) / 60) by (rewrite <- Hd; field).
  split; [reflexivity|]. split.
  - intro Hk1. assert (Hkpos : 0 < of_nat k) by (apply of_nat_pos; lia).
    rewrite Ed.
    assert (E : of_nat k * ((of_nat n + 1) / 60 / of_nat n) - of_nat k * (1 / 60)
                == of_nat k * (1 / 60) / of_nat n) by (field; lra).
    assert (P : 0 < of_nat k * (1 / 60) / of_nat n).
    { apply Qlt_shift_div_l; [assumption|]. qlra. }
    qlra.
  - intros ->. field. lra.
Qed.

Lemma of_nat_mult (a c : nat) : of_nat (a * c) == of_nat a * of_nat c.
Proof.
  unfold of_nat. rewrite Nat2Z.inj_mul, inject_Z_mult. reflexivity.
Qed.

(** X13.  The time axis of [simulate_scenario_fixed] is stretched.  For a
    duration of [h >= 1] whole hours (the script's calls: 12 and 6), that
    is [60 * h] whole minutes, the axis is
    [np.linspace(0, h, 60 * h)]: in exact arithmetic sample [k] is
    labelled [k * h / (60 * h - 1)] hours, which for every [k >= 1] is
    later than the [k] minutes the loop has integrated, and sample
    [60 * h - 1] is labelled [h] hours although only [60 * h - 1] minutes
    were integrated. *)
Theorem lives_time_axis_stretched (s_name : string) (s : Lives.scenario) (h : nat) :
  Lives.lookup s_name Lives.scenarios_params = Ok s ->
  (1 <= h)%nat ->
  exists t,
    Lives.simulate_scenario_fixed s_name (of_nat h) = Ok t /\
    length (Lives.t_h t) = length (Lives.soc t) /\
    forall k x, nth_error (Lives.t_h t) k = Some x ->
      x == of_nat k * (of_nat h / of_nat (60 * h - 1)) /\
      ((1 <= k)%nat -> of_nat k * (1 / 60) < x) /\
      (k = (60 * h - 1)%nat -> x == of_nat h).
Proof.
  intros Hl Hh. apply (lives_time_axis_minutes s_name s (of_nat h) (60 * h - 1) Hl); [lia|].
  replace (S (60 * h - 1)) with (h * 60)%nat by lia.
  rewrite of_nat_mult. reflexivity.
Qed.

Lemma lives_time_axis_stretched_witness :
  exists t,
    Lives.simulate_scenario_fixed "Idle" (of_nat 12) = Ok t /\
    length (Lives.t_h t) = length (Lives.soc t) /\
    forall k x, nth_error (Lives.t_h t) k = Some x ->
      x == of_nat k * (of_nat 12 / of_nat (60 * 12 - 1)) /\
      ((1 <= k)%nat -> of_nat k * (1 / 60) < x) /\
      (k = (60 * 12 - 1)%nat -> x == of_nat 12).
Proof.
  apply (lives_time_axis_stretched "Idle" idle 12); [reflexivity | lia].
Defined.

(** ** generate_live_gifs.py: the ensemble and its draws *)

Lemma live_noise_ext (noise_std duration_h dt_s : Q) (st1 st2 : Rng.state) :
  (forall k, (k < arange_len (duration_h * 3600) dt_s)%nat -> st1 k = st2 k) ->
  fst (Live.get_live_data_noise noise_std duration_h dt_s st1)
  = fst (Live.get_live_data_noise noise_std duration_h dt_s st2).
Proof.
  intro H. unfold Live.get_live_data_noise.
  destruct (np_arange (duration_h * 3600) dt_s) as [t_s|e] eqn:Ha; [|reflexivity].
  apply np_arange_length in Ha.
  destruct (existsb _ _); [reflexivity|].
  unfold Rng.mbind.
  pose proof (normal_array_ext 0
    (map (fun p => noise_std * p) (Live.profile (map (fun t => t / 3600) t_s))) st1 st2) as Hext.
  rewrite length_map, profile_length, length_map, Ha in Hext. specialize (Hext H).
  destruct (Rng.normal_array 0 _ st1) as [noise1 st1'].
  destruct (Rng.normal_array 0 _ st2) as [noise2 st2'].
  cbn [fst] in Hext. subst noise2.
  destruct (map (fun t => t / 3600) t_s); reflexivity.
Qed.

(** Run [k] of the ensemble is the integrator on the [k]-th block of
    draws, and the ensemble leaves the generator behind the last block. *)
Lemma runs_blocks (noise_std duration_h dt_s : Q) :
  0 <= noise_std -> 0 < dt_s -> 0 < duration_h ->
  forall n_runs st,
  exists rs,
    fst (Live.runs noise_std duration_h dt_s n_runs st) = Ok rs /\
    length rs = n_runs /\
    (forall k r, nth_error rs k = Some r ->
       exists t,
         fst (Live.get_live_data_noise noise_std duration_h dt_s
                (fun i => st (k * arange_len (duration_h * 3600) dt_s + i)%nat)) = Ok t /\
         r = Live.soc t) /\
    (forall i, snd (Live.runs noise_std duration_h dt_s n_runs st) i
               = st (n_runs * arange_len (duration_h * 3600) dt_s + i)%nat).
Proof.
  intros Hn Hdt Hdur. set (len := arange_len (duration_h * 3600) dt_s).
  induction n_runs as [|n IH]; intro st.
  - exists []. split; [reflexivity|]. split; [reflexivity|].
    split; [intros [|k] r Hr; discriminate | intro i; reflexivity].
  - cbn [Live.runs]. unfold Rng.mbind.
    destruct (live_run noise_std duration_h dt_s st Hn Hdt Hdur) as (t_s & _ & _ & _ & Hrun).
    cbv zeta in Hrun.
    pose proof (live_draw_count noise_std duration_h dt_s st) as Hcount.
    destruct (Live.get_live_data_noise noise_std duration_h dt_s st) as [r0 st'] eqn:E0.
    cbn [fst snd] in Hrun, Hcount. subst r0.
    destruct (IH st') as (rs & Hrs & Hlen & Hblocks & Hstate).
    destruct (Live.runs noise_std duration_h dt_s n st') as [rest st''].
    cbn [fst snd] in Hrs, Hstate. subst rest. unfold Rng.ret. cbn [fst snd bind].
    eexists. split; [reflexivity|]. split; [simpl; now rewrite Hlen|]. split.
    + intros [|k] r Hr; cbn [nth_error] in Hr.
      * injection Hr as <-. eexists. split.
        -- rewrite (live_noise_ext noise_std duration_h dt_s _ st);
             [rewrite E0; reflexivity | intros i _; reflexivity].
        -- reflexivity.
      * destruct (Hblocks k r Hr) as (t & Ht & ->). exists t. split; [|reflexivity].
        rewrite <- Ht. apply live_noise_ext. intros i _.
        rewrite Hcount by assumption. f_equal. fold len. lia.
    + intro i. rewrite Hstate, Hcount by assumption. f_equal. fold len. lia.
Qed.

(** X14.  The runs of the ensemble are independent in their draws: with
    [len] the number of cells of the time grid, run [k] of
    [make_stochastic_gif] is [get_live_data] on draws [k * len] to
    [(k + 1) * len - 1] of the generator, and after [n_runs] runs the
    generator has advanced by exactly [n_runs * len] draws. *)
Theorem ensemble_draws_blocks (duration_h dt_s : Q) (n_runs : nat) (st : Rng.state) :
  0 < dt_s -> 0 < duration_h ->
  exists rs,
    fst (Live.runs 0.1 duration_h dt_s n_runs st) = Ok rs /\
    length rs = n_runs /\
    (forall k r, nth_error rs k = Some r ->
       exists t,
         fst (Live.get_live_data duration_h dt_s
                (fun i => st (k * arange_len (duration_h * 3600) dt_s + i)%nat)) = Ok t /\
         r = Live.soc t) /\
    (forall i, snd (Live.runs 0.1 duration_h dt_s n_runs st) i
               = st (n_runs * arange_len (duration_h * 3600) dt_s + i)%nat).
Proof.
  intros Hdt Hdur. apply runs_blocks; [lra | assumption | assumption].
Qed.

Lemma ensemble_draws_blocks_witness :
  exists rs,
    fst (Live.runs 0.1 4 60 20 (fun k => of_nat k)) = Ok rs /\
    length rs = 20%nat /\
    (forall k r, nth_error rs k = Some r ->
       exists t,
         fst (Live.get_live_data 4 60
                (fun i => of_nat (k * arange_len (4 * 3600) 60 + i))) = Ok t /\
         r = Live.soc t) /\
    (forall i, snd (Live.runs 0.1 4 60 20 (fun k => of_nat k)) i
               = of_nat (20 * arange_len (4 * 3600) 60 + i)).
Proof.
  apply (ensemble_draws_blocks 4 60 20 (fun k => of_nat k)); lra.
Defined.

(** *** The mean line *)

Lemma fold_sum_lt (l1 l2 : list Q) :
  Forall2 Qlt l1 l2 ->
  forall a1 a2, a1 <= a2 -> (l1 = [] -> a1 < a2) ->
    fold_left Qplus l1 a1 < fold_left Qplus l2 a2.
Proof.
  induction 1 as [|x y l1 l2 Hxy _ IH]; intros a1 a2 Ha Hne; simpl.
  - now apply Hne.
  - apply IH; [lra | intros _; lra].
Qed.

Lemma Forall2_map_same {A : Type} (R : Q -> Q -> Prop) (f g : A -> Q) (l : list A) :
  (forall a, In a l -> R (f a) (g a)) -> Forall2 R (map f l) (map g l).
Proof.
  induction l as [|a l IH]; intro H; simpl; constructor.
  - apply H. now left.
  - apply IH. intros c Hc. apply H. now right.
Qed.

Lemma adjacent_map_seq (R : Q -> Q -> Prop) (f : nat -> Q) (m : nat) :
  (forall i, (S i < m)%nat -> R (f i) (f (S i))) -> adjacent R (map f (seq 0 m)).
Proof.
  intros H i x y Hx Hy. apply nth_error_map_seq in Hx. apply nth_error_map_seq in Hy.
  destruct Hx as [_ ->]. destruct Hy as [Hi ->]. cbn [Nat.add]. now apply H.
Qed.

Lemma strictly_decreasing_nth (r : list Q) (i : nat) :
  strictly_decreasing r -> (S i < length r)%nat -> nth (S i) r 0 < nth i r 0.
Proof.
  intros H Hi.
  apply (H i (nth i r 0) (nth (S i) r 0)); apply nth_error_nth'; lia.
Qed.

(** The step-wise mean of strictly decreasing rows of one length is
    strictly decreasing. *)
Lemma mean_strictly_decreasing (rs : list (list Q)) (len frame : nat) :
  rs <> [] ->
  Forall (fun r => length r = len /\ strictly_decreasing r) rs ->
  strictly_decreasing (Live.mean_y rs frame).
Proof.
  intros Hne Hall. rewrite Forall_forall in Hall.
  assert (Hn : 0 < of_nat (length rs)).
  { apply of_nat_pos. destruct rs; [contradiction | simpl; lia]. }
  assert (Hhd : length (hd [] rs) = len).
  { destruct rs as [|r0 rs]; [contradiction|]. apply (Hall r0). now left. }
  unfold Live.mean_y, Live.np_mean_axis0. rewrite map_map, length_map, Hhd.
  apply adjacent_map_seq. intros i Hi.
  assert (Hsum : fold_left Qplus (map (fun r => nth (S i) r 0) (map (firstn frame) rs)) 0
                 < fold_left Qplus (map (fun r => nth i r 0) (map (firstn frame) rs)) 0).
  { apply fold_sum_lt; [|lra|].
    - rewrite !map_map. apply Forall2_map_same. intros r Hr.
      rewrite !nth_firstn.
      assert (E1 : (S i <? frame)%nat = true) by (apply Nat.ltb_lt; lia).
      assert (E2 : (i <? frame)%nat = true) by (apply Nat.ltb_lt; lia).
      rewrite E1, E2. destruct (Hall r Hr) as [Hlen Hdec].
      apply strictly_decreasing_nth; [assumption | lia].
    - intro E. destruct rs; [contradiction | discriminate]. }
  assert (Hinv : 0 < / of_nat (length rs)) by now apply Qinv_lt_0_compat.
  unfold Qdiv. nra.
Qed.

(** X15.  For at least one run, a positive step and duration, and
    whatever noise is drawn, the mean line [make_stochastic_gif] draws is
    strictly decreasing at every frame, as every single run is. *)
Theorem ensemble_mean_strictly_decreasing (duration_h dt_s : Q) (n_runs frame : nat)
    (st : Rng.state) :
  0 < dt_s -> 0 < duration_h -> (0 < n_runs)%nat ->
  exists rs,
    fst (Live.runs 0.1 duration_h dt_s n_runs st) = Ok rs /\
    Forall strictly_decreasing rs /\
    strictly_decreasing (Live.mean_y rs frame).
Proof.
  intros Hdt Hdur Hn.
  destruct (runs_blocks 0.1 duration_h dt_s) with (n_runs := n_runs) (st := st)
    as (rs & Hrs & Hlen & Hblocks & _); [lra | assumption | assumption |].
  assert (Hrows : Forall (fun r => length r = arange_len (duration_h * 3600) dt_s
                                   /\ strictly_decreasing r) rs).
  { apply Forall_forall. intros r Hr. apply In_nth_error in Hr. destruct Hr as [k Hk].
    destruct (Hblocks k r Hk) as (t & Ht & ->).
    destruct (live_run 0.1 duration_h dt_s
                (fun i => st (k * arange_len (duration_h * 3600) dt_s + i)%nat))
      as (t_s & _ & Hpos & Hl & Hrun); [lra | assumption | assumption |].
    cbv zeta in Hrun. rewrite Hrun in Ht. injection Ht as <-. cbn [Live.soc].
    set (p := removelast (live_p_sys 0.1 (map (fun t => t / 3600) t_s) _)).
    assert (Hp : Forall (fun p_i => 0.1 <= p_i) p)
      by (apply Forall_removelast, live_p_sys_floor).
    split; [|now apply live_soc_loop_decreasing].
    cbn [length]. unfold p.
    rewrite live_soc_loop_length, removelast_length, live_p_sys_length, length_map. lia. }
  exists rs. split; [assumption|]. split.
  - apply Forall_forall. intros r Hr. rewrite Forall_forall in Hrows. now apply Hrows.
  - apply mean_strictly_decreasing with (len := arange_len (duration_h * 3600) dt_s);
      [|assumption].
    intro E. subst rs. simpl in Hlen. lia.
Qed.

Lemma ensemble_mean_strictly_decreasing_witness :
  exists rs,
    fst (Live.runs 0.1 4 60 20 (Rng.const 1)) = Ok rs /\
    Forall strictly_decreasing rs /\
    strictly_decreasing (Live.mean_y rs 235).
Proof.
  apply (ensemble_mean_strictly_decreasing 4 60 20 235 (Rng.const 1)); [lra | lra | lia].
Defined.

(** ** generate_comprehensive_lives.py: the frames of the power stack *)

Module Breakdown.

(** The label of one step: [alpha < 0.2], [alpha > 0.8], or between. *)
Definition label (start_mode end_mode : string) (dur step : nat) : string :=
  let alpha := of_nat step / of_nat dur in
  if Qlt_bool alpha 0.2 then String.append "MODE: " start_mode
  else if Qlt_bool 0.8 alpha then String.append "MODE: " end_mode
  else String.append "SWITCHING TO " (String.append end_mode "...").

(** The labels one pass of [for step in range(dur)] appends, from [step]
    on. *)
Fixpoint segment_labels (start_mode end_mode : string) (dur step n : nat) : list string :=
  match n with
  | O => []
  | S n' => label start_mode end_mode dur step
            :: segment_labels start_mode end_mode dur (S step) n'
  end.

Fixpoint labels_from (start_mode : string) (rest : list (string * nat)) : list string :=
  match rest with
  | [] => []
  | (end_mode, dur) :: rest' =>
      segment_labels start_mode end_mode dur 0 dur ++ labels_from end_mode rest'
  end.

Definition labels (checkpoints : list (string * nat)) : list string :=
  match checkpoints with
  | [] => []
  | (start_mode, _) :: rest => labels_from start_mode rest
  end.

(** [for _ in range(40): a.append(a[-1])]: forty copies of the last
    entry; [a[-1]] raises on an empty list. *)
Definition closing {A : Type} (a : list A) : result (list A) :=
  match a with
  | [] => Raise IndexError
  | x :: _ => Ok (a ++ repeat (last a x) 40)
  end.

(** The component lists (kept together, one record per frame) and the
    labels that [update(frame)] reads. *)
Definition frames (checkpoints : list (string * nat))
  : Rng.M (result (list Lives.breakdown * list string)) :=
  Rng.mbind (Lives.compose checkpoints) (fun r =>
  Rng.ret (bind r (fun entries =>
           bind (closing entries) (fun all_p =>
           bind (closing (labels checkpoints)) (fun all_labels =>
           Ok (all_p, all_labels)))))).

(** The steps of a sequence: the durations of all checkpoints but the
    first. *)
Fixpoint total_steps (rest : list (string * nat)) : nat :=
  match rest with
  | [] => 0
  | (_, dur) :: rest' => dur + total_steps rest'
  end.

End Breakdown.

Definition known (name : string) : Prop :=
  exists s, Lives.lookup name Lives.scenarios_params = Ok s.

Lemma get_comp_power_known (name : string) :
  known name -> exists p, Lives.get_comp_power name = Ok p.
Proof.
  intros [s Hs]. unfold Lives.get_comp_power. rewrite Hs. eexists. reflexivity.
Qed.

Lemma segments_length (rest : list (string * nat)) :
  Forall (fun c => known (fst c)) rest ->
  forall start_mode st, known start_mode ->
  exists l,
    fst (Lives.segments start_mode rest st) = Ok l /\
    length l = Breakdown.total_steps rest.
Proof.
  induction 1 as [|[end_mode dur] rest Hend _ IH]; intros start_mode st Hstart.
  - exists []. split; reflexivity.
  - cbn [Lives.segments]. cbn [fst] in Hend.
    destruct (get_comp_power_known _ Hstart) as [ps ->].
    destruct (get_comp_power_known _ Hend) as [pe ->].
    unfold Rng.mbind, Rng.ret.
    pose proof (segment_length ps pe dur dur 0 st) as L1.
    destruct (Lives.segment ps pe dur 0 dur st) as [here st1]. cbn [fst] in L1.
    destruct (IH end_mode st1 Hend) as (later & Hl & Hlen).
    destruct (Lives.segments end_mode rest st1) as [r st2]. cbn [fst] in Hl. subst r.
    cbn [fst bind]. eexists. split; [reflexivity|].
    rewrite length_app, L1, Hlen. reflexivity.
Qed.

Lemma segment_labels_length (a c : string) (dur step n : nat) :
  length (Breakdown.segment_labels a c dur step n) = n.
Proof.
  revert step. induction n as [|n IH]; intro step; simpl; [reflexivity | now rewrite IH].
Qed.

Lemma labels_from_length (rest : list (string * nat)) (start_mode : string) :
  length (Breakdown.labels_from start_mode rest) = Breakdown.total_steps rest.
Proof.
  revert start_mode. induction rest as [|[end_mode dur] rest IH]; intro start_mode;
    [reflexivity|].
  cbn [Breakdown.labels_from Breakdown.total_steps].
  now rewrite length_app, segment_labels_length, IH.
Qed.

Lemma last_default {A : Type} (l : list A) (x d1 d2 : A) :
  last (x :: l) d1 = last (x :: l) d2.
Proof.
  revert x. induction l as [|y l IH]; intro x; [reflexivity|].
  change (last (y :: l) d1 = last (y :: l) d2). apply IH.
Qed.

Lemma nth_error_last {A : Type} (l : list A) (x d : A) :
  nth_error (x :: l) (length l) = Some (last (x :: l) d).
Proof.
  revert x. induction l as [|y l IH]; intro x; [reflexivity|].
  change (nth_error (y :: l) (length l) = Some (last (y :: l) d)). apply IH.
Qed.

Lemma closing_spec {A : Type} (a : list A) (d : A) :
  (0 < length a)%nat ->
  exists all,
    Breakdown.closing a = Ok all /\ length all = (length a + 40)%nat /\
    forall k, (length a - 1 <= k)%nat -> (k < length a + 40)%nat ->
      nth_error all k = Some (last a d).
Proof.
  intro Hpos. destruct a as [|x a]; [simpl in Hpos; lia|].
  unfold Breakdown.closing. eexists. split; [reflexivity|].
  split; [rewrite length_app, repeat_length; reflexivity|].
  intros k Hlo Hhi. rewrite (last_default a x x d).
  destruct (Nat.eq_dec k (length a)) as [->|Hne].
  - rewrite nth_error_app1 by (simpl; lia). apply nth_error_last.
  - cbn [length] in *. rewrite nth_error_app2 by (simpl; lia).
    apply nth_error_repeat. simpl. lia.
Qed.

Lemma unknown_raises (name : string) :
  ~ known name -> Lives.get_comp_power name = Raise KeyError.
Proof.
  intro H. unfold Lives.get_comp_power.
  destruct (Lives.lookup name Lives.scenarios_params) as [s|e] eqn:E.
  - exfalso. apply H. now exists s.
  - apply lookup_raises_key_error in E. now subst e.
Qed.

Lemma known_dec (name : string) : known name \/ ~ known name.
Proof.
  unfold known. destruct (Lives.lookup name Lives.scenarios_params) as [s|e].
  - left. now exists s.
  - right. intros [s Hs]. discriminate.
Qed.

Lemma segments_key_error (rest : list (string * nat)) :
  forall start_mode st,
    rest <> [] ->
    ~ known start_mode \/ Exists (fun c => ~ known (fst c)) rest ->
    fst (Lives.segments start_mode rest st) = Raise KeyError.
Proof.
  induction rest as [|[end_mode dur] rest IH]; intros start_mode st Hne Hbad;
    [contradiction|].
  cbn [Lives.segments].
  destruct (known_dec start_mode) as [Ks|Ks]; [|now rewrite (unknown_raises _ Ks)].
  destruct (get_comp_power_known _ Ks) as [ps ->].
  destruct (known_dec end_mode) as [Ke|Ke]; [|now rewrite (unknown_raises _ Ke)].
  destruct (get_comp_power_known _ Ke) as [pe ->].
  assert (Hrest : Exists (fun c => ~ known (fst c)) rest).
  { destruct Hbad as [H|H]; [contradiction|].
    inversion H as [c l Hc|c l Hl]; subst; [cbn [fst] in Hc; contradiction | assumption]. }
  unfold Rng.mbind, Rng.ret.
  destruct (Lives.segment ps pe dur 0 dur st) as [here st1].
  assert (Hne' : rest <> []) by (intro E; subst rest; inversion Hrest).
  pose proof (IH end_mode st1 Hne' (or_intror Hrest)) as Hr.
  destruct (Lives.segments end_mode rest st1) as [r st2]. cbn [fst] in Hr. subst r.
  reflexivity.
Qed.

(** X16.  The frames of [make_power_breakdown_gif].  For a sequence of
    checkpoints whose names are all in the catalog and whose steps (the
    durations of all checkpoints but the first; the first duration is
    never read) number [total > 0], the component lists and the label
    list all have [total + 40] entries, so [labels[frame]] exists for
    every frame, and the last 41 entries of each repeat the entry of the
    last step.  With no step at all (for instance a single checkpoint)
    the closing loop raises [IndexError]; with two or more checkpoints
    and a name that is not in the catalog the call raises [KeyError]. *)
Theorem breakdown_frames_shape (start_mode : string) (d0 : nat) (rest : list (string * nat))
    (st : Rng.state) :
  (known start_mode -> Forall (fun c => known (fst c)) rest ->
     (0 < Breakdown.total_steps rest)%nat ->
     exists all_p all_labels,
       fst (Breakdown.frames ((start_mode, d0) :: rest) st) = Ok (all_p, all_labels) /\
       length all_p = (Breakdown.total_steps rest + 40)%nat /\
       length all_labels = (Breakdown.total_steps rest + 40)%nat /\
       forall k, (Breakdown.total_steps rest - 1 <= k)%nat ->
                 (k < Breakdown.total_steps rest + 40)%nat ->
         nth_error all_p k = nth_error all_p (Breakdown.total_steps rest - 1) /\
         nth_error all_labels k = nth_error all_labels (Breakdown.total_steps rest - 1)) /\
  (known start_mode -> Forall (fun c => known (fst c)) rest ->
     Breakdown.total_steps rest = 0%nat ->
     fst (Breakdown.frames ((start_mode, d0) :: rest) st) = Raise IndexError) /\
  (rest <> [] -> ~ known start_mode \/ Exists (fun c => ~ known (fst c)) rest ->
     fst (Breakdown.frames ((start_mode, d0) :: rest) st) = Raise KeyError).
Proof.
  split; [|split].
  - intros Ks Kr Hpos.
    destruct (segments_length rest Kr start_mode st Ks) as (l & Hl & Hlen).
    unfold Breakdown.frames, Lives.compose, Rng.mbind, Rng.ret.
    destruct (Lives.segments start_mode rest st) as [r st']. cbn [fst] in Hl. subst r.
    cbn [fst bind Breakdown.labels].
    pose proof (labels_from_length rest start_mode) as Hll.
    destruct l as [|e0 l]; [simpl in Hlen; lia|].
    destruct (Breakdown.labels_from start_mode rest) as [|s0 ls] eqn:El; [simpl in Hll; lia|].
    destruct (closing_spec (e0 :: l) e0) as (all_p & Hp & Lp & Np); [simpl; lia|].
    destruct (closing_spec (s0 :: ls) s0) as (all_l & Hq & Lq & Nq); [simpl; lia|].
    rewrite Hp. cbn [bind]. rewrite Hq. cbn [bind].
    exists all_p, all_l. split; [reflexivity|].
    split; [lia|]. split; [lia|].
    intros k Hlo Hhi. split.
    + rewrite (Np k), (Np (Breakdown.total_steps rest - 1)%nat); [reflexivity | lia..].
    + rewrite (Nq k), (Nq (Breakdown.total_steps rest - 1)%nat); [reflexivity | lia..].
  - intros Ks Kr Hzero.
    destruct (segments_length rest Kr start_mode st Ks) as (l & Hl & Hlen).
    unfold Breakdown.frames, Lives.compose, Rng.mbind, Rng.ret.
    destruct (Lives.segments start_mode rest st) as [r st']. cbn [fst] in Hl. subst r.
    rewrite Hzero in Hlen. apply length_zero_nil in Hlen. subst l. reflexivity.
  - intros Hne Hbad.
    pose proof (segments_key_error rest start_mode st Hne Hbad) as Hr.
    unfold Breakdown.frames, Lives.compose, Rng.mbind, Rng.ret.
    destruct (Lives.segments start_mode rest st) as [r st']. cbn [fst] in Hr. subst r.
    reflexivity.
Qed.




(** ** generate_comprehensive_lives.py: the two sweeps *)

Module Sweep.

(** [np.linspace(start, stop, num)]: cell [k] holds
    [k * ((stop - start) / (num - 1)) + start]. *)
Definition np_linspace_from (start stop : Q) (num : nat) : list Q :=
  map (fun k => of_nat k * ((stop - start) / of_nat (num - 1)) + start) (seq 0 num).

(** The two [y_func] arguments of the script:
    [lambda x: 200.0 * 0.007 * (x/100) + 0.20] and
    [lambda T: P_CPU_STATIC + K_CPU_BASE * (1.2**2) * (1 + 0.002*(T-25))]. *)
Definition display_power (x : Q) : Q := 200.0 * 0.007 * (x / 100) + 0.20.

Definition processor_power (T : Q) : Q :=
  Lives.P_CPU_STATIC + Lives.K_CPU_BASE * (1.2 ^ 2) * (1 + 0.002 * (T - 25)).

(** [y_vals = [y_func(x) for x in x_vals]]. *)
Definition y_vals (y_func : Q -> Q) (x_vals : list Q) : list Q := map y_func x_vals.

End Sweep.

Lemma linspace_from_range (start stop : Q) (num : nat) :
  start <= stop -> (2 <= num)%nat ->
  Forall (fun x => start <= x <= stop) (Sweep.np_linspace_from start stop num).
Proof.
  intros Hle Hnum. unfold Sweep.np_linspace_from. apply Forall_forall. intros x Hx.
  apply in_map_iff in Hx. destruct Hx as (k & <- & Hk). apply in_seq in Hk.
  assert (Hd : 0 < of_nat (num - 1)) by (apply of_nat_pos; lia).
  assert (Hkd : of_nat k <= of_nat (num - 1)) by (apply of_nat_le; lia).
  pose proof (of_nat_nonneg k) as Hk0.
  assert (Hstep : 0 <= (stop - start) / of_nat (num - 1))
    by (apply Qle_shift_div_l; lra).
  set (step := (stop - start) / of_nat (num - 1)) in *.
  assert (E : stop - start == step * of_nat (num - 1)) by (unfold step; field; lra).
  assert (P : 0 <= (of_nat (num - 1) - of_nat k) * step) by (apply Qmult_le_0_compat; lra).
  assert (P0 : 0 <= of_nat k * step) by (apply Qmult_le_0_compat; lra).
  split; lra.
Qed.

(** X18.  The two sweep curves are terms of the power model: the display
    sweep at [x] percent is the screen power of a scenario with the
    screen on at brightness [x/100], the processor sweep is the processor
    power of a scenario at utilisation 1.2.  Over the script's grids
    ([np.linspace(0, 100, 50)] with [ylim = 2.0], [np.linspace(25, 65, 50)]
    with [ylim = 12.0]) every plotted value lies inside the axes. *)
Theorem sweeps_follow_power_model :
  (forall s x, Lives.u_s s == 1 -> Lives.b s == x / 100 ->
     Sweep.display_power x == Lives.P_screen s) /\
  (forall s T, Lives.U s == 1.2 ->
     Sweep.processor_power T == Lives.P_proc s T) /\
  Forall (fun y => 0 <= y <= 2.0)
    (Sweep.y_vals Sweep.display_power (Sweep.np_linspace_from 0 100 50)) /\
  Forall (fun y => 0 <= y <= 12.0)
    (Sweep.y_vals Sweep.processor_power (Sweep.np_linspace_from 25 65 50)).
Proof.
  split; [|split; [|split]].
  - intros s x Hu Hb. unfold Sweep.display_power, Lives.P_screen. rewrite Hu, Hb. ring.
  - intros s T HU. unfold Sweep.processor_power, Lives.P_proc.
    rewrite U_square, HU. unfold Lives.ALPHA_CPU_T, Lives.T_REF. simpl. ring.
  - unfold Sweep.y_vals. apply Forall_forall. intros y Hy.
    apply in_map_iff in Hy. destruct Hy as (x & <- & Hx).
    pose proof (linspace_from_range 0 100 50) as Hr. rewrite Forall_forall in Hr.
    assert (Hx' : 0 <= x <= 100) by (apply Hr; [lra | lia | assumption]).
    unfold Sweep.display_power. qlra.
  - unfold Sweep.y_vals. apply Forall_forall. intros y Hy.
    apply in_map_iff in Hy. destruct Hy as (T & <- & HT).
    pose proof (linspace_from_range 25 65 50) as Hr. rewrite Forall_forall in Hr.
    assert (HT' : 25 <= T <= 65) by (apply Hr; [lra | lia | assumption]).
    unfold Sweep.processor_power, Lives.P_CPU_STATIC, Lives.K_CPU_BASE. simpl. lra.
Qed.

(** ** generate_comprehensive_lives.py: what a scenario animation shows *)

Module ScenarioGif.

(** [idx = frame * 10; if idx >= len(t_h): idx = len(t_h) - 1]. *)
Definition frame_idx (len frame : nat) : nat :=
  let idx := (frame * 10)%nat in
  if (len <=? idx)%nat then (len - 1)%nat else idx.

(** The data [update(frame)] hands to the two lines:
    [t_h[:idx]], [soc[:idx] * 100] and [temp[:idx]]. *)
Definition shown_time (t : Lives.trajectory) (frame : nat) : list Q :=
  firstn (frame_idx (length (Lives.t_h t)) frame) (Lives.t_h t).

Definition shown_soc (t : Lives.trajectory) (frame : nat) : list Q :=
  map (fun s => s * 100) (firstn (frame_idx (length (Lives.t_h t)) frame) (Lives.soc t)).

Definition shown_temp (t : Lives.trajectory) (frame : nat) : list Q :=
  firstn (frame_idx (length (Lives.t_h t)) frame) (Lives.temp t).

(** [frames = len(t_h) // 10 + 15]. *)
Definition n_frames (t : Lives.trajectory) : nat := (length (Lives.t_h t) / 10 + 15)%nat.

End ScenarioGif.

Lemma frame_idx_below (len frame : nat) :
  (0 < len)%nat -> (ScenarioGif.frame_idx len frame <= len - 1)%nat.
Proof.
  intro H. unfold ScenarioGif.frame_idx. cbv zeta.
  destruct (len <=? frame * 10)%nat eqn:E.
  - lia.
  - apply Nat.leb_gt in E. lia.
Qed.

Lemma frame_idx_last (len frame : nat) :
  (len / 10 + 1 <= frame)%nat -> ScenarioGif.frame_idx len frame = (len - 1)%nat.
Proof.
  intro H. unfold ScenarioGif.frame_idx. cbv zeta.
  assert (E : (len <=? frame * 10)%nat = true).
  { apply Nat.leb_le. pose proof (Nat.div_mod_eq len 10) as D.
    pose proof (Nat.mod_upper_bound len 10). lia. }
  now rewrite E.
Qed.

(** X19.  The animation of a scenario never draws the last sample.  For
    a catalog scenario and a duration of at least one step, every frame
    of [make_scenario_gif] shows fewer samples than the trajectory has;
    every charge it shows is positive and at most 100 percent, so the
    empty battery at which a truncated run ends is never on screen; the
    frames from [len // 10 + 1] on, the last 14 among them, all show the
    same [len - 1] samples. *)
Theorem scenario_gif_hides_last_sample (s_name : string) (s : Lives.scenario) (duration_h : Q) :
  Lives.lookup s_name Lives.scenarios_params = Ok s -> 1 <= duration_h * 60 ->
  exists t,
    Lives.simulate_scenario_fixed s_name duration_h = Ok t /\
    forall frame,
      (length (ScenarioGif.shown_soc t frame) < length (Lives.soc t))%nat /\
      length (ScenarioGif.shown_time t frame) = length (ScenarioGif.shown_soc t frame) /\
      length (ScenarioGif.shown_temp t frame) = length (ScenarioGif.shown_soc t frame) /\
      Forall (fun y => 0 < y <= 100) (ScenarioGif.shown_soc t frame) /\
      ((length (Lives.t_h t) / 10 + 1 <= frame)%nat ->
         length (ScenarioGif.shown_soc t frame) = (length (Lives.soc t) - 1)%nat).
Proof.
  intros Hl Hd. destruct (py_int_steps _ Hd) as [n Hn].
  destruct (lives_run_truncate s_name s duration_h n Hl Hn)
    as (t & Ht & _ & HT & Hth & Hpos & _ & Hup).
  assert (Hlen : (0 < length (Lives.soc t))%nat).
  { revert Ht. unfold Lives.simulate_scenario_fixed. cbv zeta. rewrite Hn.
    destruct (steps_tests n) as (-> & -> & _ & _).
    destruct (Lives.loop _ _ _ _) as [r|e]; cbn [bind]; [|discriminate].
    intro H. injection H as <-. simpl. lia. }
  exists t. split; [assumption|]. intro frame.
  unfold ScenarioGif.shown_soc, ScenarioGif.shown_time, ScenarioGif.shown_temp.
  rewrite Hth. pose proof (frame_idx_below (length (Lives.soc t)) frame Hlen) as Hidx.
  set (idx := ScenarioGif.frame_idx (length (Lives.soc t)) frame) in *.
  rewrite length_map, !length_firstn, Hth, HT.
  split; [lia|]. split; [reflexivity|]. split; [reflexivity|]. split.
  - apply Forall_forall. intros y Hy. apply in_map_iff in Hy.
    destruct Hy as (x & <- & Hx). apply In_nth_error in Hx. destruct Hx as [k Hk].
    assert (Hk' : (k < Nat.min idx (length (Lives.soc t)))%nat).
    { rewrite <- length_firstn. apply nth_error_Some. congruence. }
    rewrite nth_error_firstn in Hk.
    destruct (Nat.ltb k idx) eqn:E; [|discriminate]. apply Nat.ltb_lt in E.
    assert (Hx0 : 0 < x) by (apply (Hpos k x Hk); lia).
    pose proof (Hup k x Hk Hx0) as Hb. pose proof (of_nat_nonneg k) as Hk0.
    unfold Lives.E_MAX_WH in Hb. qdiv. split; nra.
  - intro Hlast. unfold idx. rewrite frame_idx_last by assumption. lia.
Qed.

Lemma scenario_gif_hides_last_sample_witness :
  exists t,
    Lives.simulate_scenario_fixed "Gaming" 12 = Ok t /\
    forall frame,
      (length (ScenarioGif.shown_soc t frame) < length (Lives.soc t))%nat /\
      length (ScenarioGif.shown_time t frame) = length (ScenarioGif.shown_soc t frame) /\
      length (ScenarioGif.shown_temp t frame) = length (ScenarioGif.shown_soc t frame) /\
      Forall (fun y => 0 < y <= 100) (ScenarioGif.shown_soc t frame) /\
      ((length (Lives.t_h t) / 10 + 1 <= frame)%nat ->
         length (ScenarioGif.shown_soc t frame) = (length (Lives.soc t) - 1)%nat).
Proof.
  apply (scenario_gif_hides_last_sample "Gaming" gaming 12); [reflexivity | lra].
Defined.

(** ** generate_comprehensive_lives.py: the Monte-Carlo fan *)

(** X20.  The lines of the Monte-Carlo fan do not cross: over a time grid
    that is not negative, a run with the larger noise factor lies at or
    below a run with the smaller one at every cell, all lines show 100 at
    time 0, and the main line is the line of noise factor 1. *)
Theorem mc_fan_ordered (x : list Q) (noise noise' : Q) :
  Forall (fun xk => 0 <= xk) x -> noise <= noise' ->
  Forall2 (fun a a' => a' <= a) (Lives.mc_line x noise) (Lives.mc_line x noise') /\
  same_cells (Lives.mc_line x 1) (Lives.mc_main_line x) /\
  (forall k xk y, nth_error x k = Some xk -> xk == 0 ->
     nth_error (Lives.mc_line x noise) k = Some y -> y == 100).
Proof.
  intros Hx Hn. split; [|split].
  - unfold Lives.mc_line. induction Hx as [|xk x Hxk _ IH]; simpl; constructor; [|exact IH].
    unfold Lives.base_rate.
    assert (0 <= xk * 12.0 * (noise' - noise)) by (apply Qmult_le_0_compat; lra).
    lra.
  - apply mc_line_unit. reflexivity.
  - intros k xk y Hk H0 Hy. unfold Lives.mc_line in Hy.
    rewrite nth_error_map, Hk in Hy. cbn [option_map] in Hy. injection Hy as <-.
    rewrite H0. ring.
Qed.

Lemma mc_fan_ordered_witness :
  Forall2 (fun a a' => a' <= a)
    (Lives.mc_line (np_linspace 8 480) 0.85) (Lives.mc_line (np_linspace 8 480) 1.15) /\
  same_cells (Lives.mc_line (np_linspace 8 480) 1) (Lives.mc_main_line (np_linspace 8 480)) /\
  (forall k xk y, nth_error (np_linspace 8 480) k = Some xk -> xk == 0 ->
     nth_error (Lives.mc_line (np_linspace 8 480) 0.85) k = Some y -> y == 100).
Proof.
  apply (mc_fan_ordered (np_linspace 8 480) 0.85 1.15); [|lra].
  apply Forall_forall. intros xk Hx. unfold np_linspace in Hx.
  apply in_map_iff in Hx. destruct Hx as (k & <- & _).
  apply Qmult_le_0_compat; [apply of_nat_nonneg|].
  apply Qle_shift_div_l; [vm_compute; reflexivity | lra].
Defined.
